(** * Stacks DEX pool (pool-v5): a shallow embedding of the Clarity contract

    The contract is a constant-product market maker written in Clarity.
    Clarity's [uint] is an unsigned 128-bit integer whose arithmetic is
    checked: an overflow of [+] or [*], an underflow of [-] and a division
    by zero raise a runtime error that aborts the whole transaction.
    [asserts!] and [unwrap!] leave the enclosing function early with an
    [(err code)] response. *)

From Stdlib Require Import NArith Lia List Bool.
From stdpp Require Import gmap.
Import ListNotations.
Local Open Scope N_scope.

(** ** Clarity values *)

Abbreviation uint := N.
Definition UINT_MAX : N := 2 ^ 128 - 1.

Definition principal := N.

(** A reference to a contract implementing the SIP-010 trait. *)
Definition ft_trait := N.

Inductive response (A : Type) : Type :=
| ok (a : A)
| err (e : uint).
Arguments ok {A} a.
Arguments err {A} e.

(** ** Checked arithmetic: [None] is a runtime error *)

Definition uadd (a b : uint) : option uint :=
  if a + b <=? UINT_MAX then Some (a + b) else None.

Definition usub (a b : uint) : option uint :=
  if b <=? a then Some (a - b) else None.

Definition umul (a b : uint) : option uint :=
  if a * b <=? UINT_MAX then Some (a * b) else None.

Definition udiv (a b : uint) : option uint :=
  if b =? 0 then None else Some (a / b).

(** ** Constants of the contract *)

Definition FEE_BPS : uint := 30.
Definition BPS_DENOM : uint := 10000.
Definition MINIMUM_LIQUIDITY : uint := 1000.

Definition ERR_ZERO_INPUT : uint := 100.
Definition ERR_ZERO_RESERVES : uint := 101.
Definition ERR_DEADLINE_EXPIRED : uint := 102.
Definition ERR_SLIPPAGE_EXCEEDED : uint := 103.
Definition ERR_INSUFFICIENT_LIQUIDITY : uint := 104.
Definition ERR_TRANSFER_X_FAILED : uint := 105.
Definition ERR_TRANSFER_Y_FAILED : uint := 106.
Definition ERR_FEE_TRANSFER_FAILED : uint := 107.
Definition ERR_ALREADY_INITIALIZED : uint := 200.
Definition ERR_NOT_INITIALIZED : uint := 201.
Definition ERR_INSUFFICIENT_LP_BALANCE : uint := 202.
Definition ERR_ZERO_SHARES : uint := 203.
Definition ERR_MIN_LIQUIDITY : uint := 204.

(** ** Contract storage *)

Record Pool : Type := mkPool {
  fee_recipient : option principal;
  reserve_x : uint;
  reserve_y : uint;
  total_supply : uint;
  total_fees_x : uint;
  total_fees_y : uint;
  lp_balances : gmap principal uint
}.

(** The storage of a freshly deployed contract. *)
Definition deployed : Pool :=
  mkPool None 0 0 0 0 0 ∅.

Definition set_fee_recipient (v : option principal) (p : Pool) : Pool :=
  mkPool v (reserve_x p) (reserve_y p) (total_supply p)
         (total_fees_x p) (total_fees_y p) (lp_balances p).

Definition set_reserve_x (v : uint) (p : Pool) : Pool :=
  mkPool (fee_recipient p) v (reserve_y p) (total_supply p)
         (total_fees_x p) (total_fees_y p) (lp_balances p).

Definition set_reserve_y (v : uint) (p : Pool) : Pool :=
  mkPool (fee_recipient p) (reserve_x p) v (total_supply p)
         (total_fees_x p) (total_fees_y p) (lp_balances p).

Definition set_total_supply (v : uint) (p : Pool) : Pool :=
  mkPool (fee_recipient p) (reserve_x p) (reserve_y p) v
         (total_fees_x p) (total_fees_y p) (lp_balances p).

Definition set_total_fees_x (v : uint) (p : Pool) : Pool :=
  mkPool (fee_recipient p) (reserve_x p) (reserve_y p) (total_supply p)
         v (total_fees_y p) (lp_balances p).

Definition set_total_fees_y (v : uint) (p : Pool) : Pool :=
  mkPool (fee_recipient p) (reserve_x p) (reserve_y p) (total_supply p)
         (total_fees_x p) v (lp_balances p).

Definition map_set_lp_balances (k : principal) (v : uint) (p : Pool) : Pool :=
  mkPool (fee_recipient p) (reserve_x p) (reserve_y p) (total_supply p)
         (total_fees_x p) (total_fees_y p) (<[k := v]> (lp_balances p)).

(** ** Read-only functions

    A read-only function evaluates to a runtime error ([None]) or to a
    response. *)

Definition eval (A : Type) : Type := option (response A).

Definition eret {A} (a : A) : eval A := Some (ok a).

Definition ebind {A B} (m : eval A) (k : A -> eval B) : eval B :=
  match m with
  | Some (ok a) => k a
  | Some (err e) => Some (err e)
  | None => None
  end.

(** A checked arithmetic expression used as a let-bound value. *)
Definition ecalc {A} (o : option A) : eval A :=
  match o with
  | Some a => Some (ok a)
  | None => None
  end.

Definition easserts (c : bool) (e : uint) : eval unit :=
  if c then Some (ok tt) else Some (err e).

Declare Scope eval_scope.
Delimit Scope eval_scope with eval.
Notation "'let*' x := m 'in' k" := (ebind m (fun x => k))
  (at level 10, x name, m at level 100, k at level 200) : eval_scope.
Notation "'check' m 'in' k" := (ebind m (fun _ => k))
  (at level 10, m at level 100, k at level 200) : eval_scope.

Definition get_lp_balance (p : Pool) (user : principal) : uint :=
  default 0 (lp_balances p !! user).

Record swap_quote : Type := mkQuote { q_out : uint; q_fee : uint }.

Definition quote_x_for_y (p : Pool) (dx : uint) : eval swap_quote :=
  (let rx := reserve_x p in
   let ry := reserve_y p in
   check easserts (0 <? dx) ERR_ZERO_INPUT in
   check easserts ((0 <? rx) && (0 <? ry)) ERR_ZERO_RESERVES in
   let* fee := ecalc (t ← umul dx FEE_BPS; udiv t BPS_DENOM) in
   let* dx_to_pool := ecalc (usub dx fee) in
   let* dy := ecalc (a ← umul ry dx_to_pool; b ← uadd rx dx_to_pool; udiv a b) in
   check easserts (dy <? ry) ERR_INSUFFICIENT_LIQUIDITY in
   eret (mkQuote dy fee))%eval.

Definition quote_y_for_x (p : Pool) (dy : uint) : eval swap_quote :=
  (let rx := reserve_x p in
   let ry := reserve_y p in
   check easserts (0 <? dy) ERR_ZERO_INPUT in
   check easserts ((0 <? rx) && (0 <? ry)) ERR_ZERO_RESERVES in
   let* fee := ecalc (t ← umul dy FEE_BPS; udiv t BPS_DENOM) in
   let* dy_to_pool := ecalc (usub dy fee) in
   let* dx := ecalc (a ← umul rx dy_to_pool; b ← uadd ry dy_to_pool; udiv a b) in
   check easserts (dx <? rx) ERR_INSUFFICIENT_LIQUIDITY in
   eret (mkQuote dx fee))%eval.

(** The read-only function the contract defines under the name [sqrti]:
    the seed [x0 = n / 2] followed by the seven let-bound refinements
    [x1 .. x7]. *)
Definition newton (n x : uint) : option uint :=
  q ← udiv n x; s ← uadd x q; udiv s 2.

Definition sqrti (n : uint) : option uint :=
  if n <=? 1 then Some n
  else if n <=? 3 then Some 1
  else
    x0 ← udiv n 2;
    x1 ← newton n x0;
    x2 ← newton n x1;
    x3 ← newton n x2;
    x4 ← newton n x3;
    x5 ← newton n x4;
    x6 ← newton n x5;
    x7 ← newton n x6;
    sq ← umul x7 x7;
    if sq <=? n then Some x7 else usub x7 1.

(** Clarity has a native function of the same name: [(sqrti n)] is the
    largest integer whose square is at most [n], and it does not fail on a
    [uint]. *)
Definition builtin_sqrti (n : uint) : option uint := Some (N.sqrt n).

(** The name is reserved for the native function: a contract that defines
    it is refused at deployment, and without the definition the calls of
    [sqrti] on the product of the two amounts in [quote-add-liquidity] and
    [initialize-pool] reach the native function.  The two callers therefore
    take the function the name stands for as an argument, [isqrt]; what is
    proved of them holds for [sqrti], for [builtin_sqrti] and for any other
    reading.  The scenarios further down run with [builtin_sqrti]. *)

Record liquidity_quote : Type :=
  mkLiqQuote { lq_shares : uint; lq_optimal_x : uint; lq_optimal_y : uint }.

Definition quote_add_liquidity (isqrt : uint -> option uint)
    (p : Pool) (amount_x amount_y : uint) : eval liquidity_quote :=
  (let rx := reserve_x p in
   let ry := reserve_y p in
   let supply := total_supply p in
   if supply =? 0 then
     let* shares := ecalc (n ← umul amount_x amount_y; isqrt n) in
     eret (mkLiqQuote shares amount_x amount_y)
   else
     let* shares_from_x := ecalc (t ← umul amount_x supply; udiv t rx) in
     let* shares_from_y := ecalc (t ← umul amount_y supply; udiv t ry) in
     let shares :=
       if shares_from_x <? shares_from_y then shares_from_x else shares_from_y in
     let* optimal_x := ecalc (t ← umul shares rx; udiv t supply) in
     let* optimal_y := ecalc (t ← umul shares ry; udiv t supply) in
     eret (mkLiqQuote shares optimal_x optimal_y))%eval.

Definition quote_remove_liquidity (p : Pool) (shares : uint)
  : eval (uint * uint) :=
  (let supply := total_supply p in
   let rx := reserve_x p in
   let ry := reserve_y p in
   check easserts (0 <? supply) ERR_NOT_INITIALIZED in
   check easserts (0 <? shares) ERR_ZERO_INPUT in
   let* amount_x := ecalc (t ← umul shares rx; udiv t supply) in
   let* amount_y := ecalc (t ← umul shares ry; udiv t supply) in
   eret (amount_x, amount_y))%eval.

(** [get-pool-share]: the share of the supply held by [user], in basis
    points.  It returns a plain [uint], [None] is a runtime error. *)
Definition get_pool_share (p : Pool) (user : principal) : option uint :=
  let balance := get_lp_balance p user in
  let supply := total_supply p in
  if supply =? 0 then Some 0
  else t ← umul balance 10000; udiv t supply.

Record user_liquidity : Type :=
  mkUserLiq { ul_x : uint; ul_y : uint; ul_shares : uint }.

Definition get_user_liquidity (p : Pool) (user : principal)
  : option user_liquidity :=
  let balance := get_lp_balance p user in
  let supply := total_supply p in
  let rx := reserve_x p in
  let ry := reserve_y p in
  if (supply =? 0) || (balance =? 0) then Some (mkUserLiq 0 0 0)
  else
    x ← (t ← umul balance rx; udiv t supply);
    y ← (t ← umul balance ry; udiv t supply);
    Some (mkUserLiq x y balance).

(** ** Public functions

    A public function runs against the contract storage and the state of
    the rest of the chain (the token ledgers), here [World].  It ends in a
    runtime error ([None]) or returns a response together with the state it
    leaves behind.  The body of a function that returns [(err code)] hands
    on the state it has reached; the call of the function then rolls that
    state back, whether the function was called as a transaction
    ([call_public]) or from another function of the contract
    ([public_call]). *)

Record Env : Type := mkEnv {
  tx_sender : principal;
  stacks_block_height : uint
}.

Record swap_result : Type := mkSwap {
  sr_dx : uint; sr_dy : uint; sr_fee : uint; sr_recipient : principal
}.

Record liquidity_result : Type := mkLiq {
  lr_shares : uint; lr_x : uint; lr_y : uint
}.

Record swap_x_data : Type := mkSwapX {
  sx_token_x : ft_trait; sx_token_y : ft_trait;
  sx_dx : uint; sx_min_dy : uint; sx_recipient : principal; sx_deadline : uint
}.

Record swap_y_data : Type := mkSwapY {
  sy_token_x : ft_trait; sy_token_y : ft_trait;
  sy_dy : uint; sy_min_dx : uint; sy_recipient : principal; sy_deadline : uint
}.

Record add_data : Type := mkAdd {
  ad_token_x : ft_trait; ad_token_y : ft_trait;
  ad_amount_x : uint; ad_amount_y : uint; ad_min_shares : uint
}.

Record remove_data : Type := mkRemove {
  rd_token_x : ft_trait; rd_token_y : ft_trait;
  rd_shares : uint; rd_min_x : uint; rd_min_y : uint
}.

Declare Scope pub_scope.
Delimit Scope pub_scope with pub.

Section Contract.

(** The token contracts are external: [ft_transfer token amount from to]
    is the [transfer] function of the SIP-010 contract [token], [None]
    when it answers [(err ...)] (its own changes are then rolled back).
    Clarity forbids re-entrancy, so a transfer never touches the pool's
    storage. *)
Context {World : Type}.
Variable ft_transfer :
  ft_trait -> uint -> principal -> principal -> World -> option World.

(** The principal of the pool contract, [(as-contract tx-sender)]. *)
Variable contract_principal : principal.

(** What [sqrti] stands for at the call in [initialize-pool]. *)
Variable isqrt : uint -> option uint.

Definition State : Type := Pool * World.

Definition M (A : Type) : Type := State -> option (response A * State).

Definition pub_ret {A} (a : A) : M A := fun s => Some (ok a, s).

Definition pub_bind {A B} (m : M A) (k : A -> M B) : M B :=
  fun s =>
    match m s with
    | Some (ok a, s') => k a s'
    | Some (err e, s') => Some (err e, s')
    | None => None
    end.

Definition calc {A} (o : option A) : M A :=
  fun s => match o with Some a => Some (ok a, s) | None => None end.

Definition asserts (c : bool) (e : uint) : M unit :=
  fun s => Some (if c then ok tt else err e, s).

Definition var_get {A} (field : Pool -> A) : M A :=
  fun s => Some (ok (field (fst s)), s).

(** [(var-set v e)] and [(map-set m k e)]: the new value is a checked
    expression. *)
Definition var_set {A} (set : A -> Pool -> Pool) (e : option A) : M unit :=
  fun s =>
    match e with
    | Some v => Some (ok tt, (set v (fst s), snd s))
    | None => None
    end.

(** [(unwrap! (var-get v) code)] *)
Definition unwrap_var {A} (field : Pool -> option A) (e : uint) : M A :=
  fun s =>
    match field (fst s) with
    | Some a => Some (ok a, s)
    | None => Some (err e, s)
    end.

(** [(unwrap! (contract-call? token transfer amount from to none) code)] *)
Definition transfer (token : ft_trait) (amount : uint) (from to : principal)
    (e : uint) : M unit :=
  fun s =>
    match ft_transfer token amount from to (snd s) with
    | Some w => Some (ok tt, (fst s, w))
    | None => Some (err e, s)
    end.

Notation "'let*' x := m 'in' k" := (pub_bind m (fun x => k))
  (at level 10, x name, m at level 100, k at level 200) : pub_scope.
Notation "'check' m 'in' k" := (pub_bind m (fun _ => k))
  (at level 10, m at level 100, k at level 200) : pub_scope.

Definition swap_x_for_y (env : Env) (token_x token_y : ft_trait)
    (dx min_dy : uint) (recipient : principal) (deadline : uint)
  : M swap_result :=
  (let* rx := var_get reserve_x in
   let* ry := var_get reserve_y in
   let sender := tx_sender env in
   let* fee_addr := unwrap_var fee_recipient ERR_NOT_INITIALIZED in
   check asserts (stacks_block_height env <=? deadline) ERR_DEADLINE_EXPIRED in
   check asserts (0 <? dx) ERR_ZERO_INPUT in
   check asserts ((0 <? rx) && (0 <? ry)) ERR_ZERO_RESERVES in
   let* fee := calc (t ← umul dx FEE_BPS; udiv t BPS_DENOM) in
   let* dx_to_pool := calc (usub dx fee) in
   let* dy := calc (a ← umul ry dx_to_pool; b ← uadd rx dx_to_pool; udiv a b) in
   check asserts (min_dy <=? dy) ERR_SLIPPAGE_EXCEEDED in
   check asserts (dy <? ry) ERR_INSUFFICIENT_LIQUIDITY in
   check (if (0 <? fee) && negb (sender =? fee_addr)
          then transfer token_x fee sender fee_addr ERR_FEE_TRANSFER_FAILED
          else pub_ret tt) in
   check transfer token_x dx_to_pool sender contract_principal
                  ERR_TRANSFER_X_FAILED in
   check transfer token_y dy contract_principal recipient
                  ERR_TRANSFER_Y_FAILED in
   check var_set set_reserve_x (uadd rx dx_to_pool) in
   check var_set set_reserve_y (usub ry dy) in
   let* fees_x := var_get total_fees_x in
   check var_set set_total_fees_x (uadd fees_x fee) in
   pub_ret (mkSwap dx dy fee recipient))%pub.

Definition swap_y_for_x (env : Env) (token_x token_y : ft_trait)
    (dy min_dx : uint) (recipient : principal) (deadline : uint)
  : M swap_result :=
  (let* rx := var_get reserve_x in
   let* ry := var_get reserve_y in
   let sender := tx_sender env in
   let* fee_addr := unwrap_var fee_recipient ERR_NOT_INITIALIZED in
   check asserts (stacks_block_height env <=? deadline) ERR_DEADLINE_EXPIRED in
   check asserts (0 <? dy) ERR_ZERO_INPUT in
   check asserts ((0 <? rx) && (0 <? ry)) ERR_ZERO_RESERVES in
   let* fee := calc (t ← umul dy FEE_BPS; udiv t BPS_DENOM) in
   let* dy_to_pool := calc (usub dy fee) in
   let* dx := calc (a ← umul rx dy_to_pool; b ← uadd ry dy_to_pool; udiv a b) in
   check asserts (min_dx <=? dx) ERR_SLIPPAGE_EXCEEDED in
   check asserts (dx <? rx) ERR_INSUFFICIENT_LIQUIDITY in
   check (if (0 <? fee) && negb (sender =? fee_addr)
          then transfer token_y fee sender fee_addr ERR_FEE_TRANSFER_FAILED
          else pub_ret tt) in
   check transfer token_y dy_to_pool sender contract_principal
                  ERR_TRANSFER_Y_FAILED in
   check transfer token_x dx contract_principal recipient
                  ERR_TRANSFER_X_FAILED in
   check var_set set_reserve_x (usub rx dx) in
   check var_set set_reserve_y (uadd ry dy_to_pool) in
   let* fees_y := var_get total_fees_y in
   check var_set set_total_fees_y (uadd fees_y fee) in
   pub_ret (mkSwap dx dy fee recipient))%pub.

Definition initialize_pool (env : Env) (token_x token_y : ft_trait)
    (amount_x amount_y : uint) : M liquidity_result :=
  (let sender := tx_sender env in
   let* rx := var_get reserve_x in
   let* ry := var_get reserve_y in
   check asserts ((rx =? 0) && (ry =? 0)) ERR_ALREADY_INITIALIZED in
   check asserts ((0 <? amount_x) && (0 <? amount_y)) ERR_ZERO_INPUT in
   let* shares := calc (n ← umul amount_x amount_y; isqrt n) in
   check asserts (MINIMUM_LIQUIDITY <? shares) ERR_MIN_LIQUIDITY in
   check var_set set_fee_recipient (Some (Some sender)) in
   check transfer token_x amount_x sender contract_principal
                  ERR_TRANSFER_X_FAILED in
   check transfer token_y amount_y sender contract_principal
                  ERR_TRANSFER_Y_FAILED in
   check var_set set_reserve_x (Some amount_x) in
   check var_set set_reserve_y (Some amount_y) in
   check var_set set_total_supply (Some shares) in
   check var_set (map_set_lp_balances sender) (Some shares) in
   pub_ret (mkLiq shares amount_x amount_y))%pub.

Definition add_liquidity (env : Env) (token_x token_y : ft_trait)
    (amount_x amount_y min_shares : uint) : M liquidity_result :=
  (let* rx := var_get reserve_x in
   let* ry := var_get reserve_y in
   let* supply := var_get total_supply in
   let sender := tx_sender env in
   check asserts (0 <? supply) ERR_NOT_INITIALIZED in
   check asserts ((0 <? amount_x) && (0 <? amount_y)) ERR_ZERO_INPUT in
   let* shares_from_x := calc (t ← umul amount_x supply; udiv t rx) in
   let* shares_from_y := calc (t ← umul amount_y supply; udiv t ry) in
   let shares :=
     if shares_from_x <? shares_from_y then shares_from_x else shares_from_y in
   let* actual_x := calc (t ← umul shares rx; udiv t supply) in
   let* actual_y := calc (t ← umul shares ry; udiv t supply) in
   check asserts (min_shares <=? shares) ERR_SLIPPAGE_EXCEEDED in
   check asserts (0 <? shares) ERR_ZERO_SHARES in
   check transfer token_x actual_x sender contract_principal
                  ERR_TRANSFER_X_FAILED in
   check transfer token_y actual_y sender contract_principal
                  ERR_TRANSFER_Y_FAILED in
   check var_set set_reserve_x (uadd rx actual_x) in
   check var_set set_reserve_y (uadd ry actual_y) in
   check var_set set_total_supply (uadd supply shares) in
   let* balance := var_get (fun p => get_lp_balance p sender) in
   check var_set (map_set_lp_balances sender) (uadd balance shares) in
   pub_ret (mkLiq shares actual_x actual_y))%pub.

Definition remove_liquidity (env : Env) (token_x token_y : ft_trait)
    (shares min_x min_y : uint) : M liquidity_result :=
  (let* rx := var_get reserve_x in
   let* ry := var_get reserve_y in
   let* supply := var_get total_supply in
   let sender := tx_sender env in
   let* user_balance := var_get (fun p => get_lp_balance p sender) in
   check asserts (0 <? supply) ERR_NOT_INITIALIZED in
   check asserts (0 <? shares) ERR_ZERO_INPUT in
   check asserts (shares <=? user_balance) ERR_INSUFFICIENT_LP_BALANCE in
   let* amount_x := calc (t ← umul shares rx; udiv t supply) in
   let* amount_y := calc (t ← umul shares ry; udiv t supply) in
   check asserts (min_x <=? amount_x) ERR_SLIPPAGE_EXCEEDED in
   check asserts (min_y <=? amount_y) ERR_SLIPPAGE_EXCEEDED in
   check transfer token_x amount_x contract_principal sender
                  ERR_TRANSFER_X_FAILED in
   check transfer token_y amount_y contract_principal sender
                  ERR_TRANSFER_Y_FAILED in
   check var_set set_reserve_x (usub rx amount_x) in
   check var_set set_reserve_y (usub ry amount_y) in
   check var_set set_total_supply (usub supply shares) in
   check var_set (map_set_lp_balances sender) (usub user_balance shares) in
   pub_ret (mkLiq shares amount_x amount_y))%pub.

(** *** Bulk operations *)

(** A public function called from another function of the contract runs
    as a transaction of its own: when it returns [(err ...)] everything it
    did, token transfers included, is rolled back and the caller goes on
    from the state before the call. *)
Definition public_call {A} (m : M A) : M A :=
  fun s =>
    match m s with
    | Some (ok a, s') => Some (ok a, s')
    | Some (err e, _) => Some (err e, s)
    | None => None
    end.

(** Clarity's [map]: the function is applied to the items in order, each
    from the state its predecessor left, and the values it returns, here
    responses, are collected.  The bulk functions map a function that
    calls a public function, so an item that fails leaves the state to its
    successor as it found it. *)
Fixpoint clarity_map {A B} (f : A -> M B) (l : list A)
  : State -> option (list (response B) * State) :=
  fun s =>
    match l with
    | [] => Some ([], s)
    | a :: l' =>
        match f a s with
        | None => None
        | Some (r, s1) =>
            match clarity_map f l' s1 with
            | None => None
            | Some (rs, s2) => Some (r :: rs, s2)
            end
        end
    end.

(** [(ok (map f l))] *)
Definition ok_map {A B} (f : A -> M B) (l : list A) : M (list (response B)) :=
  fun s =>
    match clarity_map f l s with
    | Some (rs, s') => Some (ok rs, s')
    | None => None
    end.

(** An argument of type [(list n T)] holds at most [n] items; a call with
    more is refused before the function runs. *)
Definition list_arg {A} (bound : nat) (l : list A) : M unit :=
  fun s => if (length l <=? bound)%nat then Some (ok tt, s) else None.

Definition len {A} (l : list A) : uint := N.of_nat (length l).

Definition bulk_swap_x_for_y_internal (env : Env) (swap_data : swap_x_data)
  : M swap_result :=
  let token_x := sx_token_x swap_data in
  let token_y := sx_token_y swap_data in
  let dx := sx_dx swap_data in
  let min_dy := sx_min_dy swap_data in
  let recipient := sx_recipient swap_data in
  let deadline := sx_deadline swap_data in
  public_call (swap_x_for_y env token_x token_y dx min_dy recipient deadline).

Definition bulk_swap_x_for_y (env : Env) (swaps : list swap_x_data)
  : M (list (response swap_result)) :=
  (check list_arg 10 swaps in
   check asserts (0 <? len swaps) ERR_ZERO_INPUT in
   ok_map (bulk_swap_x_for_y_internal env) swaps)%pub.

Definition bulk_swap_y_for_x_internal (env : Env) (swap_data : swap_y_data)
  : M swap_result :=
  let token_x := sy_token_x swap_data in
  let token_y := sy_token_y swap_data in
  let dy := sy_dy swap_data in
  let min_dx := sy_min_dx swap_data in
  let recipient := sy_recipient swap_data in
  let deadline := sy_deadline swap_data in
  public_call (swap_y_for_x env token_x token_y dy min_dx recipient deadline).

Definition bulk_swap_y_for_x (env : Env) (swaps : list swap_y_data)
  : M (list (response swap_result)) :=
  (check list_arg 10 swaps in
   check asserts (0 <? len swaps) ERR_ZERO_INPUT in
   ok_map (bulk_swap_y_for_x_internal env) swaps)%pub.

Definition bulk_add_liquidity_internal (env : Env) (liquidity_data : add_data)
  : M liquidity_result :=
  let token_x := ad_token_x liquidity_data in
  let token_y := ad_token_y liquidity_data in
  let amount_x := ad_amount_x liquidity_data in
  let amount_y := ad_amount_y liquidity_data in
  let min_shares := ad_min_shares liquidity_data in
  public_call
    (add_liquidity env token_x token_y amount_x amount_y min_shares).

Definition bulk_add_liquidity (env : Env) (liquidity_additions : list add_data)
  : M (list (response liquidity_result)) :=
  (check list_arg 5 liquidity_additions in
   check asserts (0 <? len liquidity_additions) ERR_ZERO_INPUT in
   ok_map (bulk_add_liquidity_internal env) liquidity_additions)%pub.

Definition bulk_remove_liquidity_internal (env : Env)
    (removal_data : remove_data) : M liquidity_result :=
  let token_x := rd_token_x removal_data in
  let token_y := rd_token_y removal_data in
  let shares := rd_shares removal_data in
  let min_x := rd_min_x removal_data in
  let min_y := rd_min_y removal_data in
  public_call (remove_liquidity env token_x token_y shares min_x min_y).

Definition bulk_remove_liquidity (env : Env)
    (liquidity_removals : list remove_data)
  : M (list (response liquidity_result)) :=
  (check list_arg 5 liquidity_removals in
   check asserts (0 <? len liquidity_removals) ERR_ZERO_INPUT in
   ok_map (bulk_remove_liquidity_internal env) liquidity_removals)%pub.

(** *** Transactions

    A public function called as a transaction commits when it returns
    [(ok ...)]; an [(err ...)] return or a runtime error leaves the state
    as it was before the call. *)
Inductive receipt (A : Type) : Type :=
| Committed (a : A)
| Rejected (e : uint)
| Aborted.

Definition call_public {A} (f : M A) (s : State) : receipt A * State :=
  match f s with
  | Some (ok a, s') => (Committed A a, s')
  | Some (err e, _) => (Rejected A e, s)
  | None => (Aborted A, s)
  end.

(** *** Every entry point of the contract *)

Inductive call : Type :=
| InitializePool (token_x token_y : ft_trait) (amount_x amount_y : uint)
| SwapXForY (token_x token_y : ft_trait) (dx min_dy : uint)
            (recipient : principal) (deadline : uint)
| SwapYForX (token_x token_y : ft_trait) (dy min_dx : uint)
            (recipient : principal) (deadline : uint)
| AddLiquidity (token_x token_y : ft_trait) (amount_x amount_y min_shares : uint)
| RemoveLiquidity (token_x token_y : ft_trait) (shares min_x min_y : uint)
| BulkSwapXForY (swaps : list swap_x_data)
| BulkSwapYForX (swaps : list swap_y_data)
| BulkAddLiquidity (liquidity_additions : list add_data)
| BulkRemoveLiquidity (liquidity_removals : list remove_data).

(** Run a function for its effect on the state. *)
Definition forget {A} (m : M A) : M unit :=
  fun s =>
    match m s with
    | Some (ok _, s') => Some (ok tt, s')
    | Some (err e, s') => Some (err e, s')
    | None => None
    end.

Definition run_call (env : Env) (c : call) : M unit :=
  match c with
  | InitializePool tx ty ax ay => forget (initialize_pool env tx ty ax ay)
  | SwapXForY tx ty dx min_dy rcp dl => forget (swap_x_for_y env tx ty dx min_dy rcp dl)
  | SwapYForX tx ty dy min_dx rcp dl => forget (swap_y_for_x env tx ty dy min_dx rcp dl)
  | AddLiquidity tx ty ax ay ms => forget (add_liquidity env tx ty ax ay ms)
  | RemoveLiquidity tx ty sh mx my => forget (remove_liquidity env tx ty sh mx my)
  | BulkSwapXForY l => forget (bulk_swap_x_for_y env l)
  | BulkSwapYForX l => forget (bulk_swap_y_for_x env l)
  | BulkAddLiquidity l => forget (bulk_add_liquidity env l)
  | BulkRemoveLiquidity l => forget (bulk_remove_liquidity env l)
  end.

(** The single operations a bulk function applies to its items. *)
Definition batch_item (c : call) : bool :=
  match c with
  | SwapXForY _ _ _ _ _ _ | SwapYForX _ _ _ _ _ _
  | AddLiquidity _ _ _ _ _ | RemoveLiquidity _ _ _ _ _ => true
  | _ => false
  end.

Definition removes_liquidity (c : call) : bool :=
  match c with
  | RemoveLiquidity _ _ _ _ _ | BulkRemoveLiquidity _ => true
  | _ => false
  end.

(** The states the contract goes through: the deployed contract, the
    state after each transaction, the state the body of a single operation
    reaches when a bulk function calls it for an item (before the call
    keeps it or rolls it back), while the rest of the chain moves
    freely. *)
Inductive reachable : State -> Prop :=
| reach_deployed (w : World) :
    reachable (deployed, w)
| reach_transaction (env : Env) (c : call) (s : State) :
    reachable s ->
    reachable (snd (call_public (run_call env c) s))
| reach_batch_item (env : Env) (c : call) (s s' : State) (r : response unit) :
    reachable s ->
    batch_item c = true ->
    run_call env c s = Some (r, s') ->
    reachable s'
| reach_world (p : Pool) (w w' : World) :
    reachable (p, w) ->
    reachable (p, w').

End Contract.

Arguments Committed {A} a.
Arguments Rejected {A} e.
Arguments Aborted {A}.

(** ** Share accounting *)

Definition sum_balances (m : gmap principal uint) : N :=
  map_fold (fun _ v acc => v + acc) 0 m.

(** The shares add up to the total supply, and the pool is either empty
    (no reserves, no shares) or live (both reserves and the supply are
    positive). *)
Definition consistent (p : Pool) : Prop :=
  sum_balances (lp_balances p) = total_supply p /\
  ((reserve_x p = 0 /\ reserve_y p = 0 /\ total_supply p = 0) \/
   (0 < reserve_x p /\ 0 < reserve_y p /\ 0 < total_supply p)).

Definition keeps_consistent (p p' : Pool) : Prop :=
  consistent p -> consistent p'.

Definition positive_reserves (p : Pool) : Prop :=
  0 < reserve_x p /\ 0 < reserve_y p.

Definition keeps_positive (p p' : Pool) : Prop :=
  positive_reserves p -> positive_reserves p'.

(** Shares are only burnt, and the reserves stay positive as long as some
    shares are left. *)
Definition keeps_positive_while_supplied (p p' : Pool) : Prop :=
  total_supply p' <= total_supply p /\
  (positive_reserves p -> 0 < total_supply p' -> positive_reserves p').

(** [keeps P]: a step out of a pool with [P] ends in a pool with [P]. *)
Definition keeps (P : Pool -> Prop) (p p' : Pool) : Prop := P p -> P p'.

Definition fees_grow (p p' : Pool) : Prop :=
  total_fees_x p <= total_fees_x p' /\ total_fees_y p <= total_fees_y p'.

(** A pool with shares in circulation knows its fee recipient. *)
Definition recipient_known (p : Pool) : Prop :=
  0 < total_supply p -> is_Some (fee_recipient p).

(** [step R m]: every run of [m], whatever it returns, relates the pool it
    starts from to the pool it leaves. *)
Definition step {World A} (R : Pool -> Pool -> Prop) (m : @M World A) : Prop :=
  forall s r s', m s = Some (r, s') -> R (fst s) (fst s').

(** ** A token ledger and a few accounts, for concrete runs

    A transfer fails for a zero amount, for an amount above the sender's
    balance and for a transfer to oneself, as [ft-transfer?] does. *)

Definition Ledger : Type := gmap (ft_trait * principal) uint.

Definition ft_balance (w : Ledger) (token : ft_trait) (who : principal) : uint :=
  default 0 (w !! (token, who)).

Definition ledger_transfer (token : ft_trait) (amount : uint)
    (from to : principal) (w : Ledger) : option Ledger :=
  if (0 <? amount) && (amount <=? ft_balance w token from) && negb (from =? to)
  then Some (<[(token, to) := ft_balance w token to + amount]>
               (<[(token, from) := ft_balance w token from - amount]> w))
  else None.

Definition token_x : ft_trait := 10.
Definition token_y : ft_trait := 11.
Definition deployer : principal := 1.
Definition wallet_1 : principal := 2.
Definition wallet_2 : principal := 3.
Definition pool_v5 : principal := 100.

Definition funded : Ledger :=
  {[ (token_x, deployer) := 1000000000000; (token_y, deployer) := 1000000000000;
     (token_x, wallet_1) := 1000000000000; (token_y, wallet_1) := 1000000000000 ]}.

(** The deployed contract next to the funded ledger. *)
Definition genesis : Pool * Ledger := (deployed, funded).

(** The state after the deployer initializes the pool with
    [(100000000, 200000000)]. *)
Definition initialized : Pool * Ledger :=
  snd (call_public
         (initialize_pool ledger_transfer pool_v5 builtin_sqrti
                          (mkEnv deployer 5)
                          token_x token_y 100000000 200000000)
         genesis).

(** The state after [wallet_1] then swaps [10000000] of X. *)
Definition swapped : Pool * Ledger :=
  snd (call_public
         (swap_x_for_y ledger_transfer pool_v5 (mkEnv wallet_1 6)
                       token_x token_y 10000000 18000000 wallet_1 16)
         initialized).

(** The state after the deployer, instead, withdraws every share. *)
Definition drained : Pool * Ledger :=
  snd (call_public
         (remove_liquidity ledger_transfer pool_v5 (mkEnv deployer 6)
                           token_x token_y 141421356 0 0)
         initialized).

(** The state after [wallet_1], instead, deposits [(50000000, 100000000)]. *)
Definition deposited : Pool * Ledger :=
  snd (call_public
         (add_liquidity ledger_transfer pool_v5 (mkEnv wallet_1 6)
                        token_x token_y 50000000 100000000 0)
         initialized).

(** The state after [wallet_1] then withdraws the shares of that deposit. *)
Definition redeemed : Pool * Ledger :=
  snd (call_public
         (remove_liquidity ledger_transfer pool_v5 (mkEnv wallet_1 6)
                           token_x token_y 70710678 0 0)
         deposited).

(** The state after the deployer initializes the deployed pool with
    [(1000000, 2)] instead. *)
Definition lopsided : Pool * Ledger :=
  snd (call_public
         (initialize_pool ledger_transfer pool_v5 builtin_sqrti
                          (mkEnv deployer 5)
                          token_x token_y 1000000 2)
         genesis).

(** A swap that asks for no minimum. *)
Definition quiet_swap : swap_x_data :=
  mkSwapX token_x token_y 5000000 0 wallet_2 26.

(** A batch of two swaps: the first one goes through, the second one asks
    for more than the pool gives. *)
Definition first_swap : swap_x_data :=
  mkSwapX token_x token_y 10000000 18000000 wallet_1 26.

Definition slipping_swap : swap_x_data :=
  mkSwapX token_x token_y 10000000 20000000 wallet_2 26.

(** A swap that names the pool itself as the recipient: the caller's two
    payments go through, the payout from the pool to itself does not. *)
Definition misdirected_swap : swap_x_data :=
  mkSwapX token_x token_y 10000000 0 pool_v5 26.

(** ** The front end's estimate of a swap (app.js)

    [calculateSwapOutput] receives JavaScript numbers; [parseAmount] and
    [parseClarityValue] hand it non-negative integers, and below [2 ^ 53]
    such numbers are exact.  The body converts them to [BigInt], whose
    arithmetic is exact and whose division truncates; the quotient is below
    [reserveOut], so the conversion back to a number is exact as well.  The
    model is for arguments in that range. *)

Definition MAX_SAFE_INTEGER : N := 2 ^ 53 - 1.

Definition calculateSwapOutput (amountIn reserveIn reserveOut : N) : N :=
  if (reserveIn =? 0) || (reserveOut =? 0) || (amountIn =? 0) then 0
  else
    let amountInWithFee := amountIn * (BPS_DENOM - FEE_BPS) in
    let numerator := amountInWithFee * reserveOut in
    let denominator := reserveIn * BPS_DENOM + amountInWithFee in
    numerator / denominator.

(** The items of a bulk call submitted one by one, each as a transaction of
    its own. *)
Definition one_by_one {World A B} (f : A -> @M World B) (l : list A)
    (s : Pool * World) : Pool * World :=
  fold_left (fun st a => snd (call_public (f a) st)) l s.

Definition is_ok {A} (r : response A) : bool :=
  match r with
  | ok _ => true
  | err _ => false
  end.

(** [all_below k f]: [f] holds of every number below [k]. *)
Fixpoint all_below (k : nat) (f : N -> bool) : bool :=
  match k with
  | O => true
  | S k' => f (N.of_nat k') && all_below k' f
  end.

Definition sqrti_exact_at (n : N) : bool :=
  match sqrti n with
  | Some r => r =? N.sqrt n
  | None => false
  end.

(** ** The square root as the specification words it *)

Definition newton_step (n x : N) : N := (x + n / x) / 2.

(** [steps] Newton refinements of the seed [n / 2], then the final
    adjustment. *)
Definition isqrt_newton (steps : nat) (n : N) : N :=
  if n <=? 1 then n
  else if n <=? 3 then 1
  else
    let x := Nat.iter steps (newton_step n) (n / 2) in
    if x * x <=? n then x else x - 1.


Lemma uadd_Some a b c : uadd a b = Some c <-> c = a + b /\ a + b <= UINT_MAX.
Proof.
  unfold uadd. destruct (N.leb_spec (a + b) UINT_MAX); split.
  - intros [= <-]. auto.
  - intros [-> _]. reflexivity.
  - discriminate.
  - lia.
Qed.

Lemma in_range_step n x :
  4 <= n -> 2 <= x -> 2 * x <= n ->
  2 <= newton_step n x /\ 2 * newton_step n x <= n.
Proof.
  intros Hn Hx Hxn. unfold newton_step.
  assert (Hq : n / x * x <= n) by (rewrite N.mul_comm; apply N.Div0.mul_div_le).
  assert (Hq2 : 2 <= n / x) by (apply N.div_le_lower_bound; lia).
  split.
  - apply N.div_le_lower_bound; lia.
  - assert (x + n / x <= n) by nia.
    pose proof (N.Div0.mul_div_le (x + n / x) 2). lia.
Qed.

Lemma newton_in_range n x :
  4 <= n -> n <= UINT_MAX -> 2 <= x -> 2 * x <= n ->
  newton n x = Some (newton_step n x).
Proof.
  intros Hn Hmax Hx Hxn. unfold newton, udiv, uadd, newton_step.
  assert (Hq : n / x * x <= n) by (rewrite N.mul_comm; apply N.Div0.mul_div_le).
  assert (Hq2 : 2 <= n / x) by (apply N.div_le_lower_bound; lia).
  assert (Hsum : x + n / x <= n) by nia.
  destruct (N.eqb_spec x 0) as [->|_]; [lia|]. simpl.
  destruct (N.leb_spec (x + n / x) UINT_MAX); [|lia]. reflexivity.
Qed.

Lemma iter_in_range n k :
  4 <= n ->
  2 <= Nat.iter k (newton_step n) (n / 2) /\
  2 * Nat.iter k (newton_step n) (n / 2) <= n.
Proof.
  intros Hn. induction k as [|k [IH1 IH2]]; simpl.
  - split; [apply N.div_le_lower_bound; lia | apply N.Div0.mul_div_le].
  - apply in_range_step; assumption.
Qed.

Lemma newton_iter n k :
  4 <= n -> n <= UINT_MAX ->
  newton n (Nat.iter k (newton_step n) (n / 2))
  = Some (Nat.iter (S k) (newton_step n) (n / 2)).
Proof.
  intros Hn Hmax. destruct (iter_in_range n k Hn) as [H1 H2].
  simpl. apply newton_in_range; assumption.
Qed.

(** C5 (amended): [sqrti] returns [n] for [n <= 1] and [1] for [1 < n <= 3];
    otherwise it computes the iterates [x0 = n / 2] and
    [x_(k+1) = (x_k + n / x_k) / 2] up to [x7] and returns [x7] if
    [x7 * x7 <= n], else [x7 - 1], provided that [x7 * x7] fits in 128
    bits; when it does not, the call aborts instead of returning. *)
Theorem sqrti_seven_steps (n : uint) :
  n <= UINT_MAX ->
  sqrti n =
    if (n <=? 3) || (Nat.iter 7 (newton_step n) (n / 2) ^ 2 <=? UINT_MAX)
    then Some (isqrt_newton 7 n)
    else None.
Proof.
  intros Hmax. unfold sqrti, isqrt_newton.
  destruct (N.leb_spec n 1) as [H1|H1].
  { destruct (N.leb_spec n 3); [reflexivity | lia]. }
  destruct (N.leb_spec n 3) as [H3|H3]; [reflexivity|].
  assert (Hn : 4 <= n) by lia.
  change (udiv n 2) with (Some (n / 2)). cbv [mbind option_bind].
  pose proof (fun k => newton_iter n k Hn Hmax) as Hstep.
  do 7 (let E := fresh in
        pose proof (Hstep 0%nat) as E; cbn [Nat.iter nat_rect] in E, Hstep;
        rewrite E; clear E; cbv [mbind option_bind];
        specialize (fun k => Hstep (S k))).
  clear Hstep.
  destruct (iter_in_range n 7 Hn) as [Hx _]. cbn [Nat.iter nat_rect] in *.
  set (x7 := newton_step n _) in *.
  unfold umul. rewrite N.pow_2_r. cbn [orb].
  destruct (N.leb_spec (x7 * x7) UINT_MAX); cbv [mbind option_bind]; [|reflexivity].
  destruct (N.leb_spec (x7 * x7) n); [reflexivity|].
  unfold usub. destruct (N.leb_spec 1 x7); [reflexivity | lia].
Qed.

Lemma sqrti_seven_steps_witness :
  sqrti 20000000000000000 = Some 78125000000083.
Proof.
  rewrite (sqrti_seven_steps 20000000000000000); [reflexivity|].
  unfold UINT_MAX. lia.
Defined.

(** C5 as stated fails: [sqrti] does not return for every [n].  At
    [n = 2 ^ 100], a [uint] above [3], the square of [x7] does not fit in
    128 bits and the call aborts, where the claim has it return [x7] or
    [x7 - 1]. *)
Lemma sqrti_aborts_on_overflow :
  3 < 1267650600228229401496703205376 <= UINT_MAX /\
  UINT_MAX < Nat.iter 7 (newton_step 1267650600228229401496703205376)
                        (1267650600228229401496703205376 / 2) ^ 2 /\
  sqrti 1267650600228229401496703205376 = None.
Proof.
  split; [unfold UINT_MAX; lia|]. split; vm_compute; reflexivity.
Qed.

(** ** Quotes *)

Lemma umul_Some a b c : umul a b = Some c <-> c = a * b /\ a * b <= UINT_MAX.
Proof.
  unfold umul. destruct (N.leb_spec (a * b) UINT_MAX); split.
  - intros [= <-]. auto.
  - intros [-> _]. reflexivity.
  - discriminate.
  - lia.
Qed.

Lemma usub_Some a b c : usub a b = Some c <-> c = a - b /\ b <= a.
Proof.
  unfold usub. destruct (N.leb_spec b a); split.
  - intros [= <-]. auto.
  - intros [-> _]. reflexivity.
  - discriminate.
  - lia.
Qed.

Lemma udiv_Some a b c : udiv a b = Some c <-> c = a / b /\ b <> 0.
Proof.
  unfold udiv. destruct (N.eqb_spec b 0); split.
  - discriminate.
  - intros [_ ?]. contradiction.
  - intros [= <-]. auto.
  - intros [-> _]. reflexivity.
Qed.

Lemma fee_le_amount (amount : N) : amount * FEE_BPS / BPS_DENOM <= amount.
Proof.
  unfold FEE_BPS, BPS_DENOM.
  apply N.lt_succ_r, N.Div0.div_lt_upper_bound. lia.
Qed.

(** The constant-product output is strictly below the output reserve. *)
Lemma out_lt_reserve (r_in r_out net : N) :
  0 < r_in -> 0 < r_out -> r_out * net / (r_in + net) < r_out.
Proof.
  intros Hin Hout. apply N.Div0.div_lt_upper_bound. nia.
Qed.

(** Checked fee, net input and output of a swap, shared by the quotes and
    the swaps. *)
Lemma swap_amounts_Some (amount r_in r_out fee net out : N) :
  (t ← umul amount FEE_BPS; udiv t BPS_DENOM) = Some fee ->
  usub amount fee = Some net ->
  (a ← umul r_out net; b ← uadd r_in net; udiv a b) = Some out ->
  fee = amount * FEE_BPS / BPS_DENOM /\ net = amount - fee /\ fee <= amount /\
  out = r_out * net / (r_in + net) /\ r_in + net <> 0 /\
  r_in + net <= UINT_MAX.
Proof.
  intros Hfee Hnet Hout.
  destruct (umul amount FEE_BPS) as [t|] eqn:Et; [|discriminate].
  apply umul_Some in Et as [-> _]. cbv [mbind option_bind] in Hfee.
  apply udiv_Some in Hfee as [-> _].
  apply usub_Some in Hnet as [-> Hle].
  destruct (umul r_out _) as [a|] eqn:Ea; [|discriminate].
  apply umul_Some in Ea as [-> _]. cbv [mbind option_bind] in Hout.
  destruct (uadd r_in _) as [b|] eqn:Eb; [|discriminate].
  apply uadd_Some in Eb as [-> Hb].
  apply udiv_Some in Hout as [-> Hnz]. repeat split; auto.
Qed.

(** C9 (amended): [quote-x-for-y] never answers with the
    insufficient-liquidity error; for [dx > 0] and positive reserves, when
    the intermediate values [dx * 30], [ry * (dx - fee)] and
    [rx + (dx - fee)] fit in 128 bits, it answers [ok] with an output
    strictly below [reserve-y] and with [fee = dx * 30 / 10000 <= dx]. *)
Theorem quote_x_for_y_below_reserve (p : Pool) (dx : uint) :
  quote_x_for_y p dx <> Some (err ERR_INSUFFICIENT_LIQUIDITY) /\
  (0 < dx -> 0 < reserve_x p -> 0 < reserve_y p ->
   let fee := dx * FEE_BPS / BPS_DENOM in
   dx * FEE_BPS <= UINT_MAX ->
   reserve_y p * (dx - fee) <= UINT_MAX ->
   reserve_x p + (dx - fee) <= UINT_MAX ->
   exists out,
     quote_x_for_y p dx = Some (ok (mkQuote out fee)) /\
     out = reserve_y p * (dx - fee) / (reserve_x p + (dx - fee)) /\
     out < reserve_y p /\ fee <= dx).
Proof.
  split.
  - unfold quote_x_for_y, ebind, easserts, ecalc, eret.
    destruct (N.ltb_spec 0 dx); [|discriminate].
    destruct (N.ltb_spec 0 (reserve_x p)); [|discriminate].
    destruct (N.ltb_spec 0 (reserve_y p)); [|discriminate]. cbn [andb].
    destruct (_ ≫= _) as [fee|] eqn:Efee; [|discriminate].
    destruct (usub dx fee) as [net|] eqn:Enet; [|discriminate].
    destruct (_ ≫= _) as [out|] eqn:Eout in |- *; [|discriminate].
    destruct (swap_amounts_Some _ _ _ _ _ _ Efee Enet Eout)
      as (_ & _ & _ & -> & _ & _).
    pose proof (out_lt_reserve (reserve_x p) (reserve_y p) net).
    destruct (N.ltb_spec (reserve_y p * net / (reserve_x p + net)) (reserve_y p));
      [discriminate | lia].
  - intros Hdx Hrx Hry fee Hm1 Hm2 Hm3.
    pose proof (fee_le_amount dx) as Hfee. fold fee in Hfee.
    pose proof (out_lt_reserve (reserve_x p) (reserve_y p) (dx - fee) Hrx Hry) as Hout.
    eexists. split; [|split; [reflexivity|split; [exact Hout | exact Hfee]]].
    unfold quote_x_for_y, ebind, easserts, ecalc, eret.
    destruct (N.ltb_spec 0 dx); [|lia].
    destruct (N.ltb_spec 0 (reserve_x p)); [|lia].
    destruct (N.ltb_spec 0 (reserve_y p)); [|lia]. cbn [andb].
    unfold umul at 1. destruct (N.leb_spec (dx * FEE_BPS) UINT_MAX); [|lia].
    cbv [mbind option_bind]. unfold udiv at 1. change (BPS_DENOM =? 0) with false.
    cbv iota. fold fee. unfold usub. destruct (N.leb_spec fee dx); [|lia].
    unfold umul. destruct (N.leb_spec (reserve_y p * (dx - fee)) UINT_MAX); [|lia].
    unfold uadd. destruct (N.leb_spec (reserve_x p + (dx - fee)) UINT_MAX); [|lia].
    unfold udiv. destruct (N.eqb_spec (reserve_x p + (dx - fee)) 0); [lia|].
    destruct (N.ltb_spec (reserve_y p * (dx - fee) / (reserve_x p + (dx - fee)))
                         (reserve_y p)); [reflexivity | lia].
Qed.


(** ** Single operations *)

Lemma muldiv_Some (a b c v : N) :
  (t ← umul a b; udiv t c) = Some v ->
  v = a * b / c /\ c <> 0 /\ a * b <= UINT_MAX.
Proof.
  intros H. destruct (umul a b) as [t|] eqn:Et; [|discriminate].
  apply umul_Some in Et as [-> Hle]. cbv [mbind option_bind] in H.
  apply udiv_Some in H as [-> Hnz]. auto.
Qed.

Ltac bool_facts :=
  repeat match goal with
  | H : (_ && _) = true |- _ => apply andb_true_iff in H as [? ?]
  | H : (_ <? _) = true |- _ => apply N.ltb_lt in H
  | H : (_ <=? _) = true |- _ => apply N.leb_le in H
  | H : (_ =? _) = true |- _ => apply N.eqb_eq in H
  end.

Ltac arith_facts :=
  repeat match goal with
  | H : uadd _ _ = Some _ |- _ => apply uadd_Some in H as [-> _]
  | H : usub _ _ = Some _ |- _ => apply usub_Some in H as [-> _]
  end.

Ltac muldiv_facts :=
  repeat match goal with
  | H : (_ ≫= _) = Some _ |- _ => apply muldiv_Some in H as (-> & ? & _)
  end.

Ltac swap_facts :=
  match goal with
  | Hf : (_ ≫= _) = Some ?fee, Hn : usub _ ?fee = Some ?net,
    Ho : (_ ≫= _) = Some ?out |- _ =>
      destruct (swap_amounts_Some _ _ _ _ _ _ Hf Hn Ho)
        as (-> & -> & _ & -> & _ & _); clear Hf Hn Ho
  end.


Section Operations.

Context {World : Type}.
Variable ft_transfer :
  ft_trait -> uint -> principal -> principal -> World -> option World.
Variable contract_principal : principal.
Variable isqrt : uint -> option uint.

Local Abbreviation State := (Pool * World)%type.
Local Abbreviation M := (@M World).
Local Abbreviation transfer := (transfer ft_transfer).
Local Abbreviation swap_x_for_y := (swap_x_for_y ft_transfer contract_principal).
Local Abbreviation swap_y_for_x := (swap_y_for_x ft_transfer contract_principal).
Local Abbreviation initialize_pool := (initialize_pool ft_transfer contract_principal isqrt).
Local Abbreviation add_liquidity := (add_liquidity ft_transfer contract_principal).
Local Abbreviation remove_liquidity := (remove_liquidity ft_transfer contract_principal).

(** *** Inversion of the monad's operations *)

Lemma pub_bind_ok {A B} (m : M A) (k : A -> M B) s b s' :
  pub_bind m k s = Some (ok b, s') ->
  exists a s1, m s = Some (ok a, s1) /\ k a s1 = Some (ok b, s').
Proof.
  unfold pub_bind. destruct (m s) as [[[a|e] s1]|]; [eauto | discriminate..].
Qed.

Lemma pub_bind_err {A B} (m : M A) (k : A -> M B) s e s' :
  pub_bind m k s = Some (err e, s') ->
  m s = Some (err e, s') \/
  exists a s1, m s = Some (ok a, s1) /\ k a s1 = Some (err e, s').
Proof.
  unfold pub_bind. destruct (m s) as [[[a|e1] s1]|]; [eauto | | discriminate].
  intros [= -> ->]. auto.
Qed.

Lemma var_get_inv {A} (field : Pool -> A) (s s1 : State) r :
  var_get field s = Some (r, s1) -> r = ok (field (fst s)) /\ s1 = s.
Proof. unfold var_get. intros [= <- <-]. auto. Qed.

Lemma asserts_inv c e (s s1 : State) r :
  asserts c e s = Some (r, s1) ->
  s1 = s /\ (r = ok tt /\ c = true \/ r = err e /\ c = false).
Proof. unfold asserts. destruct c; intros [= <- <-]; auto. Qed.

Lemma calc_inv {A} (o : option A) (s s1 : State) r :
  calc o s = Some (r, s1) -> exists a, o = Some a /\ r = ok a /\ s1 = s.
Proof. unfold calc. destruct o; [|discriminate]. intros [= <- <-]. eauto. Qed.

Lemma unwrap_var_inv {A} (field : Pool -> option A) e (s s1 : State) r :
  unwrap_var field e s = Some (r, s1) ->
  s1 = s /\ ((exists a, field (fst s) = Some a /\ r = ok a) \/
             field (fst s) = None /\ r = err e).
Proof.
  unfold unwrap_var. destruct (field (fst s)); intros [= <- <-]; eauto.
Qed.

Lemma var_set_inv {A} (set : A -> Pool -> Pool) (o : option A) (s s1 : State) r :
  var_set set o s = Some (r, s1) ->
  exists v, o = Some v /\ r = ok tt /\ s1 = (set v (fst s), snd s).
Proof. unfold var_set. destruct o; [|discriminate]. intros [= <- <-]. eauto. Qed.

Lemma transfer_inv token amount from to e (s s1 : State) r :
  transfer token amount from to e s = Some (r, s1) ->
  (exists w, ft_transfer token amount from to (snd s) = Some w /\
             r = ok tt /\ s1 = (fst s, w)) \/
  (ft_transfer token amount from to (snd s) = None /\ r = err e /\ s1 = s).
Proof.
  unfold transfer. destruct (ft_transfer _ _ _ _ _); intros [= <- <-]; eauto.
Qed.

Lemma fee_transfer_inv (c : bool) token amount from to e (s s1 : State) r :
  (if c then transfer token amount from to e else pub_ret tt) s = Some (r, s1) ->
  (exists w, r = ok tt /\ s1 = (fst s, w)) \/ (r = err e /\ s1 = s).
Proof.
  destruct c.
  - intros H. apply transfer_inv in H as [(w & _ & -> & ->)|(_ & -> & ->)]; eauto.
  - unfold pub_ret. intros [= <- <-]. left. exists (snd s). by destruct s.
Qed.

Lemma pub_ret_inv {A} (a : A) (s s1 : State) r :
  pub_ret a s = Some (r, s1) -> r = ok a /\ s1 = s.
Proof. unfold pub_ret. intros [= <- <-]. auto. Qed.

(** Invert one statement that went through. *)
Ltac inv_prim Hm :=
  lazymatch type of Hm with
  | var_get _ _ = _ =>
      apply var_get_inv in Hm as [Hm ->]; injection Hm as ->
  | asserts _ _ _ = _ =>
      apply asserts_inv in Hm as [-> [[_ Hm]|[Hm _]]]; [|discriminate Hm]
  | calc _ _ = _ =>
      let E := fresh "E" in
      apply calc_inv in Hm as (? & Hm & E & ->); injection E as <-
  | unwrap_var _ _ _ = _ =>
      let E := fresh "E" in
      apply unwrap_var_inv in Hm as [-> [(? & Hm & E)|[_ Hm]]];
      [injection E as <- | discriminate Hm]
  | var_set _ _ _ = _ =>
      apply var_set_inv in Hm as (? & Hm & _ & ->)
  | (if _ then _ else _) _ = _ =>
      apply fee_transfer_inv in Hm as [(? & _ & ->)|(Hm & _)];
      [|discriminate Hm]
  | _ =>
      apply transfer_inv in Hm as [(? & Hm & _ & ->)|(_ & Hm & _)];
      [|discriminate Hm]
  end;
  cbn [fst snd] in *.

(** Invert one statement that returned early. *)
Ltac inv_prim_err Hm :=
  lazymatch type of Hm with
  | var_get _ _ = _ => apply var_get_inv in Hm as [Hm _]; discriminate Hm
  | asserts _ _ _ = _ => apply asserts_inv in Hm as [-> _]
  | calc _ _ = _ => apply calc_inv in Hm as (? & _ & Hm & _); discriminate Hm
  | unwrap_var _ _ _ = _ => apply unwrap_var_inv in Hm as [-> _]
  | var_set _ _ _ = _ => apply var_set_inv in Hm as (? & _ & Hm & _); discriminate Hm
  | pub_ret _ _ = _ => apply pub_ret_inv in Hm as [Hm _]; discriminate Hm
  | (if _ then _ else _) _ = _ =>
      apply fee_transfer_inv in Hm as [(? & Hm & _)|(_ & ->)]; [discriminate Hm|]
  | _ =>
      apply transfer_inv in Hm as [(? & _ & Hm & _)|(_ & _ & ->)];
      [discriminate Hm|]
  end;
  cbn [fst snd] in *.

Ltac inv_ok H :=
  repeat (let a := fresh "a" in
          let s1 := fresh "s" in
          let Hm := fresh "Hm" in
          apply pub_bind_ok in H as (a & s1 & Hm & H);
          inv_prim Hm; cbn beta zeta in H);
  apply pub_ret_inv in H as [H ->]; injection H as H; cbn [fst snd] in *.

Ltac inv_err H :=
  repeat (let a := fresh "a" in
          let s1 := fresh "s" in
          let Hm := fresh "Hm" in
          apply pub_bind_err in H as [H | (a & s1 & Hm & H)];
          [inv_prim_err H; reflexivity | inv_prim Hm; cbn beta zeta in H]);
  inv_prim_err H.

Lemma swap_x_for_y_ok env tx ty dx min_dy recipient deadline
    (s s' : State) r :
  swap_x_for_y env tx ty dx min_dy recipient deadline s = Some (ok r, s') ->
  let p := fst s in
  let fee := dx * FEE_BPS / BPS_DENOM in
  let net := dx - fee in
  let dy := reserve_y p * net / (reserve_x p + net) in
  is_Some (fee_recipient p) /\
  stacks_block_height env <= deadline /\
  0 < dx /\ 0 < reserve_x p /\ 0 < reserve_y p /\
  min_dy <= dy /\ dy < reserve_y p /\
  r = mkSwap dx dy fee recipient /\
  fst s' = set_total_fees_x (total_fees_x p + fee)
             (set_reserve_y (reserve_y p - dy)
                (set_reserve_x (reserve_x p + net) p)).
Proof.
  destruct s as [p w]. intros H. unfold swap_x_for_y in H.
  inv_ok H. swap_facts. bool_facts. arith_facts. subst r.
  repeat split; eauto.
Qed.

Lemma swap_x_for_y_err env tx ty dx min_dy recipient deadline
    (s s' : State) e :
  swap_x_for_y env tx ty dx min_dy recipient deadline s = Some (err e, s') ->
  fst s' = fst s.
Proof.
  destruct s as [p w]. intros H. unfold swap_x_for_y in H. inv_err H.
Qed.

Lemma swap_y_for_x_ok env tx ty dy min_dx recipient deadline
    (s s' : State) r :
  swap_y_for_x env tx ty dy min_dx recipient deadline s = Some (ok r, s') ->
  let p := fst s in
  let fee := dy * FEE_BPS / BPS_DENOM in
  let net := dy - fee in
  let dx := reserve_x p * net / (reserve_y p + net) in
  is_Some (fee_recipient p) /\
  stacks_block_height env <= deadline /\
  0 < dy /\ 0 < reserve_x p /\ 0 < reserve_y p /\
  min_dx <= dx /\ dx < reserve_x p /\
  r = mkSwap dx dy fee recipient /\
  fst s' = set_total_fees_y (total_fees_y p + fee)
             (set_reserve_y (reserve_y p + net)
                (set_reserve_x (reserve_x p - dx) p)).
Proof.
  destruct s as [p w]. intros H. unfold swap_y_for_x in H.
  inv_ok H. swap_facts. bool_facts. arith_facts. subst r.
  repeat split; eauto.
Qed.

Lemma swap_y_for_x_err env tx ty dy min_dx recipient deadline
    (s s' : State) e :
  swap_y_for_x env tx ty dy min_dx recipient deadline s = Some (err e, s') ->
  fst s' = fst s.
Proof.
  destruct s as [p w]. intros H. unfold swap_y_for_x in H. inv_err H.
Qed.

Lemma initialize_pool_ok env tx ty amount_x amount_y (s s' : State) r :
  initialize_pool env tx ty amount_x amount_y s = Some (ok r, s') ->
  let p := fst s in
  let sender := tx_sender env in
  reserve_x p = 0 /\ reserve_y p = 0 /\ 0 < amount_x /\ 0 < amount_y /\
  exists shares,
    isqrt (amount_x * amount_y) = Some shares /\
    MINIMUM_LIQUIDITY < shares /\
    r = mkLiq shares amount_x amount_y /\
    fst s' = map_set_lp_balances sender shares
               (set_total_supply shares
                  (set_reserve_y amount_y
                     (set_reserve_x amount_x
                        (set_fee_recipient (Some sender) p)))).
Proof.
  destruct s as [p w]. intros H. unfold initialize_pool in H.
  inv_ok H. bool_facts.
  destruct (umul amount_x amount_y) as [n|] eqn:En; [|discriminate].
  apply umul_Some in En as [-> _]. cbv [mbind option_bind] in *.
  repeat match goal with H : Some _ = Some _ |- _ => injection H as <- end.
  subst r. repeat split; eauto.
Qed.

Lemma add_liquidity_ok env tx ty amount_x amount_y min_shares
    (s s' : State) r :
  add_liquidity env tx ty amount_x amount_y min_shares s = Some (ok r, s') ->
  let p := fst s in
  let sender := tx_sender env in
  let supply := total_supply p in
  let shares_from_x := amount_x * supply / reserve_x p in
  let shares_from_y := amount_y * supply / reserve_y p in
  let shares :=
    if shares_from_x <? shares_from_y then shares_from_x else shares_from_y in
  let actual_x := shares * reserve_x p / supply in
  let actual_y := shares * reserve_y p / supply in
  0 < supply /\ 0 < amount_x /\ 0 < amount_y /\
  reserve_x p <> 0 /\ reserve_y p <> 0 /\
  min_shares <= shares /\ 0 < shares /\
  r = mkLiq shares actual_x actual_y /\
  fst s' = map_set_lp_balances sender (get_lp_balance p sender + shares)
             (set_total_supply (supply + shares)
                (set_reserve_y (reserve_y p + actual_y)
                   (set_reserve_x (reserve_x p + actual_x) p))).
Proof.
  destruct s as [p w]. intros H. unfold add_liquidity in H.
  inv_ok H. muldiv_facts. bool_facts. unfold get_lp_balance in *.
  cbn [lp_balances set_total_supply set_reserve_y set_reserve_x] in *.
  arith_facts. subst r. repeat split; eauto.
Qed.

Lemma add_liquidity_err env tx ty amount_x amount_y min_shares
    (s s' : State) e :
  add_liquidity env tx ty amount_x amount_y min_shares s = Some (err e, s') ->
  fst s' = fst s.
Proof.
  destruct s as [p w]. intros H. unfold add_liquidity in H. inv_err H.
Qed.

Lemma remove_liquidity_ok env tx ty shares min_x min_y (s s' : State) r :
  remove_liquidity env tx ty shares min_x min_y s = Some (ok r, s') ->
  let p := fst s in
  let sender := tx_sender env in
  let supply := total_supply p in
  let amount_x := shares * reserve_x p / supply in
  let amount_y := shares * reserve_y p / supply in
  0 < supply /\ 0 < shares /\ shares <= get_lp_balance p sender /\
  min_x <= amount_x /\ min_y <= amount_y /\
  amount_x <= reserve_x p /\ amount_y <= reserve_y p /\ shares <= supply /\
  r = mkLiq shares amount_x amount_y /\
  fst s' = map_set_lp_balances sender (get_lp_balance p sender - shares)
             (set_total_supply (supply - shares)
                (set_reserve_y (reserve_y p - amount_y)
                   (set_reserve_x (reserve_x p - amount_x) p))).
Proof.
  destruct s as [p w]. intros H. unfold remove_liquidity in H.
  inv_ok H. muldiv_facts. bool_facts.
  repeat match goal with
         | H : usub _ _ = Some _ |- _ => apply usub_Some in H as [-> ?]
         end.
  subst r. repeat split; eauto.
Qed.

Lemma remove_liquidity_err env tx ty shares min_x min_y (s s' : State) e :
  remove_liquidity env tx ty shares min_x min_y s = Some (err e, s') ->
  fst s' = fst s.
Proof.
  destruct s as [p w]. intros H. unfold remove_liquidity in H. inv_err H.
Qed.

(** *** The quotes predict the operations *)

Ltac replay :=
  repeat (first
            [ match goal with H : (_ ≫= _) = Some _ |- _ => rewrite H end
            | match goal with H : _ = true |- _ => rewrite H end
            | match goal with H : _ = Some _ |- _ => rewrite H end ];
          cbv beta iota).

(** X1: a swap of X for Y that goes through returned what [quote-x-for-y]
    answers on the state before it. *)
Theorem swap_x_for_y_as_quoted env tx ty dx min_dy recipient deadline
    (s s' : State) r :
  swap_x_for_y env tx ty dx min_dy recipient deadline s = Some (ok r, s') ->
  quote_x_for_y (fst s) dx = Some (ok (mkQuote (sr_dy r) (sr_fee r))).
Proof.
  destruct s as [p w]. intros H. unfold swap_x_for_y in H. inv_ok H. subst r.
  unfold quote_x_for_y, ebind, easserts, ecalc, eret. cbn [fst sr_dy sr_fee].
  replay. reflexivity.
Qed.

(** X2: a swap of Y for X that goes through returned what [quote-y-for-x]
    answers on the state before it. *)
Theorem swap_y_for_x_as_quoted env tx ty dy min_dx recipient deadline
    (s s' : State) r :
  swap_y_for_x env tx ty dy min_dx recipient deadline s = Some (ok r, s') ->
  quote_y_for_x (fst s) dy = Some (ok (mkQuote (sr_dx r) (sr_fee r))).
Proof.
  destruct s as [p w]. intros H. unfold swap_y_for_x in H. inv_ok H. subst r.
  unfold quote_y_for_x, ebind, easserts, ecalc, eret. cbn [fst sr_dx sr_fee].
  replay. reflexivity.
Qed.

(** X3: a deposit that goes through issued the shares and pulled the
    amounts that [quote-add-liquidity] answers on the state before it. *)
Theorem add_liquidity_as_quoted env tx ty amount_x amount_y min_shares
    (s s' : State) r :
  add_liquidity env tx ty amount_x amount_y min_shares s = Some (ok r, s') ->
  quote_add_liquidity isqrt (fst s) amount_x amount_y
    = Some (ok (mkLiqQuote (lr_shares r) (lr_x r) (lr_y r))).
Proof.
  destruct s as [p w]. intros H. unfold add_liquidity in H. inv_ok H. subst r.
  unfold quote_add_liquidity, ebind, ecalc, eret. cbn [fst lr_shares lr_x lr_y].
  match goal with
  | H : (0 <? total_supply p) = true |- _ =>
      apply N.ltb_lt in H;
      destruct (N.eqb_spec (total_supply p) 0) as [E|_]; [lia|]
  end.
  replay. reflexivity.
Qed.

(** X4: a withdrawal that goes through paid the amounts that
    [quote-remove-liquidity] answers on the state before it. *)
Theorem remove_liquidity_as_quoted env tx ty shares min_x min_y
    (s s' : State) r :
  remove_liquidity env tx ty shares min_x min_y s = Some (ok r, s') ->
  quote_remove_liquidity (fst s) shares = Some (ok (lr_x r, lr_y r)).
Proof.
  destruct s as [p w]. intros H. unfold remove_liquidity in H. inv_ok H. subst r.
  unfold quote_remove_liquidity, ebind, easserts, ecalc, eret.
  cbn [fst lr_x lr_y]. replay. reflexivity.
Qed.

(** *** What a swap never answers, and what it moves *)

(** One statement returned early with a given code: impossible for every
    statement whose code is another one; an [asserts!] or [unwrap!] with
    that code leaves the condition that failed. *)
Ltac early H :=
  let E := fresh "E" in
  lazymatch type of H with
  | var_get _ _ = _ => apply var_get_inv in H as [H _]; discriminate H
  | calc _ _ = _ => apply calc_inv in H as (? & _ & H & _); discriminate H
  | var_set _ _ _ = _ => apply var_set_inv in H as (? & _ & H & _); discriminate H
  | pub_ret _ _ = _ => apply pub_ret_inv in H as [H _]; discriminate H
  | asserts _ _ _ = _ =>
      apply asserts_inv in H as [_ [[E _]|[E H]]];
      [discriminate E | try (cbv in E; discriminate E)]
  | unwrap_var _ _ _ = _ =>
      apply unwrap_var_inv in H as [_ [(? & _ & E)|[H E]]];
      [discriminate E | try (cbv in E; discriminate E)]
  | (if _ then _ else _) _ = _ =>
      apply fee_transfer_inv in H as [(? & E & _)|(E & _)];
      [discriminate E | try (cbv in E; discriminate E)]
  | _ =>
      apply transfer_inv in H as [(? & _ & E & _)|(_ & E & _)];
      [discriminate E | try (cbv in E; discriminate E)]
  end.

Ltac early_return H :=
  repeat (let a := fresh "a" in
          let s1 := fresh "s" in
          let Hm := fresh "Hm" in
          apply pub_bind_err in H as [H | (a & s1 & Hm & H)];
          [early H | inv_prim Hm; cbn beta zeta in H]);
  try early H.

(** X5: neither swap ever fails with the insufficient-liquidity code 104:
    with both reserves positive the output is always below the reserve. *)
Theorem swap_never_insufficient_liquidity env tx ty amount min_out recipient
    deadline (s s' : State) :
  swap_x_for_y env tx ty amount min_out recipient deadline s
    <> Some (err ERR_INSUFFICIENT_LIQUIDITY, s') /\
  swap_y_for_x env tx ty amount min_out recipient deadline s
    <> Some (err ERR_INSUFFICIENT_LIQUIDITY, s').
Proof.
  destruct s as [p w]. split; intros H.
  - unfold swap_x_for_y in H. early_return H.
    swap_facts. bool_facts.
    pose proof (out_lt_reserve (reserve_x p) (reserve_y p)
                  (amount - amount * FEE_BPS / BPS_DENOM)).
    apply N.ltb_ge in H. lia.
  - unfold swap_y_for_x in H. early_return H.
    swap_facts. bool_facts.
    pose proof (out_lt_reserve (reserve_y p) (reserve_x p)
                  (amount - amount * FEE_BPS / BPS_DENOM)).
    apply N.ltb_ge in H. lia.
Qed.

(** A swap that answers 201 found no fee recipient. *)
Lemma swap_x_for_y_err_201 env tx ty dx min_dy recipient deadline
    (s s' : State) :
  swap_x_for_y env tx ty dx min_dy recipient deadline s
    = Some (err ERR_NOT_INITIALIZED, s') ->
  fee_recipient (fst s) = None.
Proof.
  destruct s as [p w]. intros H. unfold swap_x_for_y in H. early_return H.
  exact H.
Qed.

Lemma fee_transfer_run (c : bool) token amount from to e (s s1 : State) :
  (if c then transfer token amount from to e else pub_ret tt) s
    = Some (ok tt, s1) ->
  exists w, s1 = (fst s, w) /\
            if c then ft_transfer token amount from to (snd s) = Some w
            else w = snd s.
Proof.
  destruct c.
  - intros H. apply transfer_inv in H as [(w & Hw & _ & ->)|(_ & E & _)];
      [eauto | discriminate E].
  - unfold pub_ret. intros [= <-]. exists (snd s). by destruct s.
Qed.

(** X6: the transfers behind a successful swap of X for Y, in order: the
    fee from the caller to the fee recipient, skipped when the fee is zero
    or the caller is the fee recipient; then [dx - fee] from the caller to
    the pool; then [dy] from the pool to the recipient. *)
Theorem swap_x_for_y_transfers env tx ty dx min_dy recipient deadline
    (p : Pool) (w : World) (s' : State) r :
  swap_x_for_y env tx ty dx min_dy recipient deadline (p, w) = Some (ok r, s') ->
  exists fee_addr w0 w1,
    fee_recipient p = Some fee_addr /\
    (if (0 <? sr_fee r) && negb (tx_sender env =? fee_addr)
     then ft_transfer tx (sr_fee r) (tx_sender env) fee_addr w = Some w0
     else w0 = w) /\
    ft_transfer tx (dx - sr_fee r) (tx_sender env) contract_principal w0
      = Some w1 /\
    ft_transfer ty (sr_dy r) contract_principal recipient w1 = Some (snd s').
Proof.
  intros H. unfold swap_x_for_y in H.
  do 11 (let a := fresh "a" in
         let s1 := fresh "s" in
         let Hm := fresh "Hm" in
         apply pub_bind_ok in H as (a & s1 & Hm & H);
         inv_prim Hm; cbn beta zeta in H).
  apply pub_bind_ok in H as ([] & s1 & Hfee & H).
  apply fee_transfer_run in Hfee as (w0 & -> & Hfee). cbn [fst snd] in *.
  inv_ok H. subst r. cbn [sr_fee sr_dy].
  match goal with
  | Hn : usub dx _ = Some _ |- _ => apply usub_Some in Hn as [-> _]
  end.
  eauto 10.
Qed.

End Operations.

(** ** Arithmetic of the pool *)

Lemma product_grows (r_in r_out net : N) :
  r_in * r_out <= (r_in + net) * (r_out - r_out * net / (r_in + net)).
Proof.
  pose proof (N.Div0.mul_div_le (r_out * net) (r_in + net)) as Hq.
  assert (Hle : r_out * net / (r_in + net) <= r_out).
  { apply N.Div0.div_le_upper_bound. nia. }
  set (out := r_out * net / (r_in + net)) in *.
  clearbody out. rewrite N.mul_sub_distr_l, N.mul_add_distr_r, (N.mul_comm net r_out). lia.
Qed.

Lemma share_of_reserve_lt (shares supply reserve : N) :
  shares < supply -> 0 < reserve -> shares * reserve / supply < reserve.
Proof. intros Hs Hr. apply N.Div0.div_lt_upper_bound. nia. Qed.

Lemma share_of_reserve_all (supply reserve : N) :
  0 < supply -> supply * reserve / supply = reserve.
Proof. intros Hs. rewrite N.mul_comm. apply N.div_mul. lia. Qed.

(** ** Sum of the share balances *)

Lemma sum_balances_comm (j1 j2 : principal) (z1 z2 y : N) :
  z1 + (z2 + y) = z2 + (z1 + y).
Proof. lia. Qed.

Lemma sum_balances_delete (m : gmap principal uint) k v :
  m !! k = Some v -> sum_balances m = v + sum_balances (delete k m).
Proof.
  intros Hk. unfold sum_balances.
  apply (map_fold_delete_L (fun _ v acc => v + acc)); [|exact Hk].
  intros. apply sum_balances_comm; assumption.
Qed.

Lemma sum_balances_insert_fresh (m : gmap principal uint) k v :
  m !! k = None -> sum_balances (<[k := v]> m) = v + sum_balances m.
Proof.
  intros Hk. unfold sum_balances.
  apply (map_fold_insert_L (fun _ v acc => v + acc)); [|exact Hk].
  intros. apply sum_balances_comm; assumption.
Qed.

Lemma sum_balances_insert (m : gmap principal uint) k v :
  sum_balances (<[k := v]> m) + default 0 (m !! k) = sum_balances m + v.
Proof.
  destruct (m !! k) as [x|] eqn:Hk; simpl.
  - rewrite (sum_balances_delete m k x Hk), <- (insert_delete_eq m k v).
    rewrite sum_balances_insert_fresh by apply lookup_delete_eq. lia.
  - rewrite sum_balances_insert_fresh by exact Hk. lia.
Qed.

Lemma balance_le_sum (m : gmap principal uint) k :
  default 0 (m !! k) <= sum_balances m.
Proof.
  destruct (m !! k) as [x|] eqn:Hk; simpl; [|lia].
  rewrite (sum_balances_delete m k x Hk). lia.
Qed.

Lemma sum_balances_empty : sum_balances ∅ = 0.
Proof. apply map_fold_empty. Qed.

Lemma consistent_deployed : consistent deployed.
Proof.
  split; [apply sum_balances_empty | left; auto].
Qed.

(** Name the quotients and the conditional amounts, so that the linear
    solver sees them as unknowns. *)
Ltac name_amounts :=
  repeat match goal with
  | |- context [if ?c then ?a else ?b] =>
      let v := fresh "v" in set (v := if c then a else b) in *; clearbody v
  | H : context [if ?c then ?a else ?b] |- _ =>
      let v := fresh "v" in set (v := if c then a else b) in *; clearbody v
  end;
  repeat match goal with
  | |- context [?a / ?b] =>
      let q := fresh "q" in set (q := a / b) in *; clearbody q
  | H : context [?a / ?b] |- _ =>
      let q := fresh "q" in set (q := a / b) in *; clearbody q
  end.

(** ** Invariants of the storage *)

Section Invariants.

Context {World : Type}.
Variable ft_transfer :
  ft_trait -> uint -> principal -> principal -> World -> option World.
Variable contract_principal : principal.
Variable isqrt : uint -> option uint.

Local Abbreviation State := (Pool * World)%type.
Local Abbreviation M := (@M World).
Local Abbreviation swap_x_for_y := (swap_x_for_y ft_transfer contract_principal).
Local Abbreviation swap_y_for_x := (swap_y_for_x ft_transfer contract_principal).
Local Abbreviation initialize_pool := (initialize_pool ft_transfer contract_principal isqrt).
Local Abbreviation add_liquidity := (add_liquidity ft_transfer contract_principal).
Local Abbreviation remove_liquidity := (remove_liquidity ft_transfer contract_principal).
Local Abbreviation bulk_swap_x_for_y := (bulk_swap_x_for_y ft_transfer contract_principal).
Local Abbreviation bulk_swap_y_for_x := (bulk_swap_y_for_x ft_transfer contract_principal).
Local Abbreviation bulk_add_liquidity := (bulk_add_liquidity ft_transfer contract_principal).
Local Abbreviation bulk_remove_liquidity := (bulk_remove_liquidity ft_transfer contract_principal).
Local Abbreviation run_call := (run_call ft_transfer contract_principal isqrt).
Local Abbreviation reachable := (reachable ft_transfer contract_principal isqrt).

Lemma step_clarity_map {A B} (R : Pool -> Pool -> Prop)
    `{!Reflexive R, !Transitive R} (f : A -> M B) (l : list A) :
  (forall a, step R (f a)) ->
  forall s rs s', clarity_map f l s = Some (rs, s') -> R (fst s) (fst s').
Proof.
  intros Hf. induction l as [|a l IH]; intros s rs s' H; cbn in H.
  - injection H as <- <-. reflexivity.
  - destruct (f a s) as [[r s1]|] eqn:Ea; [|discriminate].
    destruct (clarity_map f l s1) as [[rs1 s2]|] eqn:El; [|discriminate].
    injection H as <- <-.
    transitivity (fst s1); [eapply Hf; eauto | eapply IH; eauto].
Qed.

Lemma step_bulk {A B} (R : Pool -> Pool -> Prop)
    `{!Reflexive R, !Transitive R} (f : A -> M B) (l : list A) bound :
  (forall a, step R (f a)) ->
  step R (pub_bind (list_arg bound l)
            (fun _ => pub_bind (asserts (0 <? len l) ERR_ZERO_INPUT)
                        (fun _ => ok_map f l))).
Proof.
  intros Hf s r s' H. unfold pub_bind, list_arg, asserts, ok_map in H.
  destruct (length l <=? bound)%nat; [|discriminate].
  destruct (0 <? len l).
  - destruct (clarity_map f l s) as [[rs s1]|] eqn:El; [|discriminate].
    injection H as <- <-. eapply step_clarity_map; eauto.
  - injection H as <- <-. reflexivity.
Qed.

Lemma step_forget {A} (R : Pool -> Pool -> Prop) (m : M A) :
  step R m -> step R (forget m).
Proof.
  intros Hm s r s' H. unfold forget in H.
  destruct (m s) as [[[a|e] s1]|] eqn:Em; [| |discriminate];
    injection H as <- <-; eapply Hm; eauto.
Qed.

Lemma step_public_call {A} (R : Pool -> Pool -> Prop) `{!Reflexive R}
    (m : M A) :
  step R m -> step R (public_call m).
Proof.
  intros Hm s r s' H. unfold public_call in H.
  destruct (m s) as [[[a|e] s1]|] eqn:Em; [| |discriminate];
    injection H as <- <-; [eapply Hm; eauto | reflexivity].
Qed.

(** *** The storage stays consistent *)

#[local] Instance keeps_consistent_refl : Reflexive keeps_consistent.
Proof. intros p H. exact H. Qed.

#[local] Instance keeps_consistent_trans : Transitive keeps_consistent.
Proof. intros p q r H1 H2 H. auto. Qed.

Lemma swap_x_for_y_consistent env tx ty dx min_dy recipient deadline :
  step keeps_consistent (swap_x_for_y env tx ty dx min_dy recipient deadline).
Proof.
  intros s [r|e] s' H.
  - apply swap_x_for_y_ok in H as (_ & _ & _ & Hx & Hy & _ & Hlt & _ & ->).
    intros [Hsum [(? & _)|(_ & _ & Ht)]]; [lia|].
    split; [exact Hsum|]. right. cbn. repeat split; lia.
  - apply swap_x_for_y_err in H as ->. intros Hc. exact Hc.
Qed.

Lemma swap_y_for_x_consistent env tx ty dy min_dx recipient deadline :
  step keeps_consistent (swap_y_for_x env tx ty dy min_dx recipient deadline).
Proof.
  intros s [r|e] s' H.
  - apply swap_y_for_x_ok in H as (_ & _ & _ & Hx & Hy & _ & Hlt & _ & ->).
    intros [Hsum [(? & _)|(_ & _ & Ht)]]; [lia|].
    split; [exact Hsum|]. right. cbn. repeat split; lia.
  - apply swap_y_for_x_err in H as ->. intros Hc. exact Hc.
Qed.

Lemma add_liquidity_consistent env tx ty amount_x amount_y min_shares :
  step keeps_consistent (add_liquidity env tx ty amount_x amount_y min_shares).
Proof.
  intros s [r|e] s' H.
  - apply add_liquidity_ok in H as (Hs & _ & _ & Hx & Hy & _ & Hsh & _ & ->).
    intros [Hsum _]. split; cbn.
    + pose proof (sum_balances_insert (lp_balances (fst s)) (tx_sender env)
                    (get_lp_balance (fst s) (tx_sender env) +
                     (if amount_x * total_supply (fst s) / reserve_x (fst s) <?
                         amount_y * total_supply (fst s) / reserve_y (fst s)
                      then amount_x * total_supply (fst s) / reserve_x (fst s)
                      else amount_y * total_supply (fst s) / reserve_y (fst s)))).
      unfold get_lp_balance in *. name_amounts. lia.
    + right. repeat split; name_amounts; lia.
  - apply add_liquidity_err in H as ->. intros Hc. exact Hc.
Qed.

Lemma remove_liquidity_consistent env tx ty shares min_x min_y :
  step keeps_consistent (remove_liquidity env tx ty shares min_x min_y).
Proof.
  intros s [r|e] s' H.
  - apply remove_liquidity_ok in H
      as (Hs & Hsh & Hbal & _ & _ & Hax & Hay & Hle & _ & ->).
    intros [Hsum [(_ & _ & ?)|(Hx & Hy & _)]]; [lia|]. split; cbn.
    + pose proof (sum_balances_insert (lp_balances (fst s)) (tx_sender env)
                    (get_lp_balance (fst s) (tx_sender env) - shares)).
      unfold get_lp_balance in *. lia.
    + destruct (N.eq_dec shares (total_supply (fst s))) as [->|Hne].
      * left. rewrite !share_of_reserve_all by exact Hs. lia.
      * right.
        pose proof (share_of_reserve_lt shares (total_supply (fst s))
                      (reserve_x (fst s))).
        pose proof (share_of_reserve_lt shares (total_supply (fst s))
                      (reserve_y (fst s))).
        repeat split; lia.
  - apply remove_liquidity_err in H as ->. intros Hc. exact Hc.
Qed.

Lemma initialize_pool_consistent env tx ty amount_x amount_y s r s' :
  initialize_pool env tx ty amount_x amount_y s = Some (ok r, s') ->
  consistent (fst s) -> consistent (fst s').
Proof.
  intros H. apply initialize_pool_ok in H
    as (Hx & Hy & Hax & Hay & shares & _ & Hmin & _ & ->).
  intros [Hsum [(_ & _ & Ht)|(? & _)]]; [|lia]. split; cbn.
  - pose proof (sum_balances_insert (lp_balances (fst s)) (tx_sender env) shares).
    pose proof (balance_le_sum (lp_balances (fst s)) (tx_sender env)). lia.
  - right. unfold MINIMUM_LIQUIDITY in Hmin. repeat split; lia.
Qed.

Lemma run_call_item_consistent env c :
  batch_item c = true -> step keeps_consistent (run_call env c).
Proof.
  destruct c; try discriminate; intros _; apply step_forget.
  - apply swap_x_for_y_consistent.
  - apply swap_y_for_x_consistent.
  - apply add_liquidity_consistent.
  - apply remove_liquidity_consistent.
Qed.

Lemma run_call_consistent env c s r s' :
  run_call env c s = Some (ok r, s') ->
  consistent (fst s) -> consistent (fst s').
Proof.
  destruct c; cbn [run_call]; intros H.
  - unfold forget in H.
    destruct (initialize_pool _ _ _ _ _ s) as [[[a|e] s1]|] eqn:Ei;
      [|discriminate..].
    injection H as _ <-. eapply initialize_pool_consistent; eauto.
  - eapply (step_forget keeps_consistent), H. apply swap_x_for_y_consistent.
  - eapply (step_forget keeps_consistent), H. apply swap_y_for_x_consistent.
  - eapply (step_forget keeps_consistent), H. apply add_liquidity_consistent.
  - eapply (step_forget keeps_consistent), H. apply remove_liquidity_consistent.
  - eapply (step_forget keeps_consistent), H. apply step_bulk; try apply _.
    intros a. apply step_public_call; [apply _|]. apply swap_x_for_y_consistent.
  - eapply (step_forget keeps_consistent), H. apply step_bulk; try apply _.
    intros a. apply step_public_call; [apply _|]. apply swap_y_for_x_consistent.
  - eapply (step_forget keeps_consistent), H. apply step_bulk; try apply _.
    intros a. apply step_public_call; [apply _|]. apply add_liquidity_consistent.
  - eapply (step_forget keeps_consistent), H. apply step_bulk; try apply _.
    intros a. apply step_public_call; [apply _|]. apply remove_liquidity_consistent.
Qed.

Lemma reachable_consistent s : reachable s -> consistent (fst s).
Proof.
  induction 1 as [w | env c s _ IH | env c s s' r _ IH Hc Hrun | p w w' _ IH].
  - exact consistent_deployed.
  - unfold call_public.
    destruct (run_call env c s) as [[[a|e] s1]|] eqn:Er; cbn [snd fst];
      [|exact IH..].
    eapply run_call_consistent; eauto.
  - eapply run_call_item_consistent; eauto.
  - exact IH.
Qed.

(** Each single operation, also when it runs as an item of a batch and
    whatever it returns, keeps the equality from any state that has it. *)
Lemma batch_item_keeps_sum env c (s s' : State) r :
  batch_item c = true ->
  run_call env c s = Some (r, s') ->
  sum_balances (lp_balances (fst s)) = total_supply (fst s) ->
  sum_balances (lp_balances (fst s')) = total_supply (fst s').
Proof.
  destruct c; try discriminate; intros _; cbn [run_call]; unfold forget;
    intros H Hsum.
  - destruct (swap_x_for_y _ _ _ _ _ _ _ s) as [[[a|e] s1]|] eqn:E;
      [| |discriminate]; injection H as _ <-.
    + apply swap_x_for_y_ok in E as (_ & _ & _ & _ & _ & _ & _ & _ & ->).
      exact Hsum.
    + apply swap_x_for_y_err in E as ->. exact Hsum.
  - destruct (swap_y_for_x _ _ _ _ _ _ _ s) as [[[a|e] s1]|] eqn:E;
      [| |discriminate]; injection H as _ <-.
    + apply swap_y_for_x_ok in E as (_ & _ & _ & _ & _ & _ & _ & _ & ->).
      exact Hsum.
    + apply swap_y_for_x_err in E as ->. exact Hsum.
  - destruct (add_liquidity _ _ _ _ _ _ s) as [[[a|e] s1]|] eqn:E;
      [| |discriminate]; injection H as _ <-.
    + apply add_liquidity_ok in E as (_ & _ & _ & _ & _ & _ & _ & _ & ->). cbn.
      pose proof (sum_balances_insert (lp_balances (fst s)) (tx_sender env)) as Hi.
      unfold get_lp_balance in *. name_amounts.
      specialize (Hi (default 0 (lp_balances (fst s) !! tx_sender env) + v)).
      lia.
    + apply add_liquidity_err in E as ->. exact Hsum.
  - destruct (remove_liquidity _ _ _ _ _ _ s) as [[[a|e] s1]|] eqn:E;
      [| |discriminate]; injection H as _ <-.
    + apply remove_liquidity_ok in E
        as (_ & _ & Hbal & _ & _ & _ & _ & Hle & _ & ->). cbn.
      pose proof (sum_balances_insert (lp_balances (fst s)) (tx_sender env)
                    (get_lp_balance (fst s) (tx_sender env) - shares)).
      unfold get_lp_balance in *. lia.
    + apply remove_liquidity_err in E as ->. exact Hsum.
Qed.

(** C8: the share balances of all accounts add up to [total-supply] in
    the deployed contract and in every state the contract reaches: after
    [initialize-pool], [add-liquidity], [remove-liquidity], both swaps,
    every bulk call, and after every item of a batch. *)
Theorem shares_sum_to_total_supply (s : State) :
  reachable s ->
  sum_balances (lp_balances (fst s)) = total_supply (fst s).
Proof. intros H. apply reachable_consistent in H as [Hsum _]. exact Hsum. Qed.

(** *** The constant product *)

(** C7: a successful swap, in either direction, never decreases the
    product of the reserves. *)
Theorem swap_product_nondecreasing env tx ty amount min_out recipient deadline
    (s s' : State) r :
  (swap_x_for_y env tx ty amount min_out recipient deadline s = Some (ok r, s') ->
   reserve_x (fst s) * reserve_y (fst s)
   <= reserve_x (fst s') * reserve_y (fst s')) /\
  (swap_y_for_x env tx ty amount min_out recipient deadline s = Some (ok r, s') ->
   reserve_x (fst s) * reserve_y (fst s)
   <= reserve_x (fst s') * reserve_y (fst s')).
Proof.
  split; intros H.
  - apply swap_x_for_y_ok in H as (_ & _ & _ & _ & _ & _ & _ & _ & ->). cbn.
    apply product_grows.
  - apply swap_y_for_x_ok in H as (_ & _ & _ & _ & _ & _ & _ & _ & ->). cbn.
    rewrite (N.mul_comm (reserve_x (fst s)) (reserve_y (fst s))).
    rewrite (N.mul_comm (reserve_x (fst s) - _)).
    apply product_grows.
Qed.

(** *** Positive reserves *)

#[local] Instance keeps_positive_refl : Reflexive keeps_positive.
Proof. intros p H. exact H. Qed.

#[local] Instance keeps_positive_trans : Transitive keeps_positive.
Proof. intros p q r H1 H2 H. auto. Qed.

#[local] Instance keeps_positive_while_supplied_refl :
  Reflexive keeps_positive_while_supplied.
Proof. intros p. split; [lia | auto]. Qed.

#[local] Instance keeps_positive_while_supplied_trans :
  Transitive keeps_positive_while_supplied.
Proof.
  intros p q r [H1 H2] [H3 H4]. split; [lia|].
  intros Hp Hr. apply H4; [apply H2; [exact Hp | lia] | exact Hr].
Qed.

Lemma swap_x_for_y_positive env tx ty dx min_dy recipient deadline :
  step keeps_positive (swap_x_for_y env tx ty dx min_dy recipient deadline).
Proof.
  intros s [r|e] s' H.
  - apply swap_x_for_y_ok in H as (_ & _ & _ & Hx & Hy & _ & Hlt & _ & ->).
    intros _. split; cbn; lia.
  - apply swap_x_for_y_err in H as ->. intros Hp. exact Hp.
Qed.

Lemma swap_y_for_x_positive env tx ty dy min_dx recipient deadline :
  step keeps_positive (swap_y_for_x env tx ty dy min_dx recipient deadline).
Proof.
  intros s [r|e] s' H.
  - apply swap_y_for_x_ok in H as (_ & _ & _ & Hx & Hy & _ & Hlt & _ & ->).
    intros _. split; cbn; lia.
  - apply swap_y_for_x_err in H as ->. intros Hp. exact Hp.
Qed.

Lemma add_liquidity_positive env tx ty amount_x amount_y min_shares :
  step keeps_positive (add_liquidity env tx ty amount_x amount_y min_shares).
Proof.
  intros s [r|e] s' H.
  - apply add_liquidity_ok in H as (_ & _ & _ & _ & _ & _ & _ & _ & ->).
    intros [Hx Hy]. split; cbn; name_amounts; lia.
  - apply add_liquidity_err in H as ->. intros Hp. exact Hp.
Qed.

Lemma remove_liquidity_positive env tx ty shares min_x min_y :
  step keeps_positive_while_supplied
       (remove_liquidity env tx ty shares min_x min_y).
Proof.
  intros s [r|e] s' H.
  - apply remove_liquidity_ok in H
      as (Hs & Hsh & _ & _ & _ & _ & _ & Hle & _ & ->).
    split; cbn; [lia|]. intros [Hx Hy] Hleft.
    pose proof (share_of_reserve_lt shares (total_supply (fst s))
                  (reserve_x (fst s))).
    pose proof (share_of_reserve_lt shares (total_supply (fst s))
                  (reserve_y (fst s))).
    split; cbn; lia.
  - apply remove_liquidity_err in H as ->. reflexivity.
Qed.

(** C2 (amended): from a state with both reserves positive, every call
    that commits - a swap, [add-liquidity], [remove-liquidity] or a bulk
    call - leaves both reserves positive, provided that a removal of
    liquidity leaves some shares in circulation. *)
Theorem reserves_stay_positive env c (s s' : State) r :
  0 < reserve_x (fst s) -> 0 < reserve_y (fst s) ->
  call_public (run_call env c) s = (Committed r, s') ->
  (removes_liquidity c = true -> 0 < total_supply (fst s')) ->
  0 < reserve_x (fst s') /\ 0 < reserve_y (fst s').
Proof.
  intros Hx Hy Hcall Hleft.
  assert (Hp : positive_reserves (fst s)) by (split; assumption).
  unfold call_public in Hcall.
  destruct (run_call env c s) as [[[a|e] s1]|] eqn:Hrun; [|discriminate..].
  injection Hcall as _ <-.
  destruct c; cbn [run_call removes_liquidity] in *.
  - unfold forget in Hrun.
    destruct (initialize_pool _ _ _ _ _ s) as [[[a'|e] s2]|] eqn:Ei;
      [|discriminate..].
    apply initialize_pool_ok in Ei as (E0 & _). lia.
  - refine (step_forget keeps_positive _ _ _ _ _ Hrun Hp).
    apply swap_x_for_y_positive.
  - refine (step_forget keeps_positive _ _ _ _ _ Hrun Hp).
    apply swap_y_for_x_positive.
  - refine (step_forget keeps_positive _ _ _ _ _ Hrun Hp).
    apply add_liquidity_positive.
  - refine (proj2 (step_forget keeps_positive_while_supplied _ _ _ _ _ Hrun)
              Hp (Hleft eq_refl)).
    apply remove_liquidity_positive.
  - refine (step_forget keeps_positive _ _ _ _ _ Hrun Hp).
    apply step_bulk; try apply _. intros i.
    apply step_public_call; [apply _|]. apply swap_x_for_y_positive.
  - refine (step_forget keeps_positive _ _ _ _ _ Hrun Hp).
    apply step_bulk; try apply _. intros i.
    apply step_public_call; [apply _|]. apply swap_y_for_x_positive.
  - refine (step_forget keeps_positive _ _ _ _ _ Hrun Hp).
    apply step_bulk; try apply _. intros i.
    apply step_public_call; [apply _|]. apply add_liquidity_positive.
  - refine (proj2 (step_forget keeps_positive_while_supplied _ _ _ _ _ Hrun)
              Hp (Hleft eq_refl)).
    apply step_bulk; try apply _. intros i.
    apply step_public_call; [apply _|]. apply remove_liquidity_positive.
Qed.

End Invariants.

(** ** Order of the checks, results of the bulk functions, scenarios *)

Section Behaviour.

Context {World : Type}.
Variable ft_transfer :
  ft_trait -> uint -> principal -> principal -> World -> option World.
Variable contract_principal : principal.
Variable isqrt : uint -> option uint.

Local Abbreviation State := (Pool * World)%type.
Local Abbreviation swap_x_for_y := (swap_x_for_y ft_transfer contract_principal).
Local Abbreviation swap_y_for_x := (swap_y_for_x ft_transfer contract_principal).
Local Abbreviation initialize_pool := (initialize_pool ft_transfer contract_principal isqrt).
Local Abbreviation bulk_swap_x_for_y := (bulk_swap_x_for_y ft_transfer contract_principal).
Local Abbreviation bulk_swap_y_for_x := (bulk_swap_y_for_x ft_transfer contract_principal).
Local Abbreviation bulk_add_liquidity := (bulk_add_liquidity ft_transfer contract_principal).
Local Abbreviation bulk_remove_liquidity := (bulk_remove_liquidity ft_transfer contract_principal).
Local Abbreviation remove_liquidity := (remove_liquidity ft_transfer contract_principal).

(** C6 (amended): [swap-x-for-y] first unwraps the fee recipient (error
    201 on a pool that was never initialized), then checks the deadline
    (102), then [dx > 0] (100), then that both reserves are positive
    (101); the first violated check gives the error, and the state is
    untouched. *)
Theorem swap_x_for_y_check_order env tx ty dx min_dy recipient deadline
    (s : State) :
  let run := swap_x_for_y env tx ty dx min_dy recipient deadline s in
  (fee_recipient (fst s) = None ->
   run = Some (err ERR_NOT_INITIALIZED, s)) /\
  (is_Some (fee_recipient (fst s)) ->
   deadline < stacks_block_height env ->
   run = Some (err ERR_DEADLINE_EXPIRED, s)) /\
  (is_Some (fee_recipient (fst s)) ->
   stacks_block_height env <= deadline ->
   dx = 0 ->
   run = Some (err ERR_ZERO_INPUT, s)) /\
  (is_Some (fee_recipient (fst s)) ->
   stacks_block_height env <= deadline ->
   0 < dx ->
   reserve_x (fst s) = 0 \/ reserve_y (fst s) = 0 ->
   run = Some (err ERR_ZERO_RESERVES, s)).
Proof.
  cbv zeta. unfold swap_x_for_y, pub_bind, var_get, unwrap_var, asserts.
  repeat split.
  - intros ->. reflexivity.
  - intros [a ->] Hd. apply N.leb_gt in Hd as ->. reflexivity.
  - intros [a ->] Hd ->. apply N.leb_le in Hd as ->. reflexivity.
  - intros [a ->] Hd Hdx Hr. apply N.leb_le in Hd as ->.
    apply N.ltb_lt in Hdx as ->.
    assert ((0 <? reserve_x (fst s)) && (0 <? reserve_y (fst s)) = false) as ->.
    { apply andb_false_iff. rewrite !N.ltb_ge. lia. }
    reflexivity.
Qed.

(** The same order holds for [swap-y-for-x]. *)
Lemma swap_y_for_x_check_order env tx ty dy min_dx recipient deadline
    (s : State) :
  let run := swap_y_for_x env tx ty dy min_dx recipient deadline s in
  (fee_recipient (fst s) = None ->
   run = Some (err ERR_NOT_INITIALIZED, s)) /\
  (is_Some (fee_recipient (fst s)) ->
   deadline < stacks_block_height env ->
   run = Some (err ERR_DEADLINE_EXPIRED, s)) /\
  (is_Some (fee_recipient (fst s)) ->
   stacks_block_height env <= deadline ->
   dy = 0 ->
   run = Some (err ERR_ZERO_INPUT, s)) /\
  (is_Some (fee_recipient (fst s)) ->
   stacks_block_height env <= deadline ->
   0 < dy ->
   reserve_x (fst s) = 0 \/ reserve_y (fst s) = 0 ->
   run = Some (err ERR_ZERO_RESERVES, s)).
Proof.
  cbv zeta. unfold swap_y_for_x, pub_bind, var_get, unwrap_var, asserts.
  repeat split.
  - intros ->. reflexivity.
  - intros [a ->] Hd. apply N.leb_gt in Hd as ->. reflexivity.
  - intros [a ->] Hd ->. apply N.leb_le in Hd as ->. reflexivity.
  - intros [a ->] Hd Hdy Hr. apply N.leb_le in Hd as ->.
    apply N.ltb_lt in Hdy as ->.
    assert ((0 <? reserve_x (fst s)) && (0 <? reserve_y (fst s)) = false) as ->.
    { apply andb_false_iff. rewrite !N.ltb_ge. lia. }
    reflexivity.
Qed.

(** Against reserves [(100000000, 200000000)], whoever calls and with
    whatever tokens and limits, a successful [swap-x-for-y] of
    [dx = 10000000] returns [dy = 18132217] with [fee = 30000], and a
    successful [swap-y-for-x] of [dy = 20000000] returns [dx = 9066108]
    with [fee = 60000]: the output is priced on the amount net of the
    fee. *)
Lemma swap_scenario env tx ty min_out recipient deadline (s s' : State) r :
  reserve_x (fst s) = 100000000 -> reserve_y (fst s) = 200000000 ->
  (swap_x_for_y env tx ty 10000000 min_out recipient deadline s
     = Some (ok r, s') ->
   sr_dy r = 18132217 /\ sr_fee r = 30000) /\
  (swap_y_for_x env tx ty 20000000 min_out recipient deadline s
     = Some (ok r, s') ->
   sr_dx r = 9066108 /\ sr_fee r = 60000).
Proof.
  intros Hx Hy. split; intros H.
  - apply swap_x_for_y_ok in H as (_ & _ & _ & _ & _ & _ & _ & -> & _).
    rewrite Hx, Hy. split; reflexivity.
  - apply swap_y_for_x_ok in H as (_ & _ & _ & _ & _ & _ & _ & -> & _).
    rewrite Hx, Hy. split; reflexivity.
Qed.

(** A bulk function wraps the list of the items' responses in [ok]: it
    never returns the error of an item, and its only error is the one
    for an empty list. *)
Lemma bulk_result {A B} (f : A -> M B) (l : list A) bound (s s' : State) e :
  pub_bind (list_arg bound l)
    (fun _ => pub_bind (asserts (0 <? len l) ERR_ZERO_INPUT)
                (fun _ => ok_map f l)) s = Some (err e, s') ->
  l = [] /\ e = ERR_ZERO_INPUT /\ s' = s.
Proof.
  unfold pub_bind, list_arg, asserts, ok_map, len. intros H.
  destruct (length l <=? bound)%nat; [|discriminate].
  destruct l as [|a l]; cbn in H.
  - injection H as <- <-. auto.
  - change (0 <? N.of_nat (S (length l))) with true in H. cbv iota in H.
    destruct (f a s) as [[r s1]|]; [|discriminate].
    destruct (clarity_map f l s1) as [[rs s2]|]; discriminate.
Qed.

(** So does each of the four bulk functions. *)
Lemma bulk_calls_fail_only_when_empty env (s s' : State) e :
  (forall l, bulk_swap_x_for_y env l s = Some (err e, s') ->
             l = [] /\ e = ERR_ZERO_INPUT /\ s' = s) /\
  (forall l, bulk_swap_y_for_x env l s = Some (err e, s') ->
             l = [] /\ e = ERR_ZERO_INPUT /\ s' = s) /\
  (forall l, bulk_add_liquidity env l s = Some (err e, s') ->
             l = [] /\ e = ERR_ZERO_INPUT /\ s' = s) /\
  (forall l, bulk_remove_liquidity env l s = Some (err e, s') ->
             l = [] /\ e = ERR_ZERO_INPUT /\ s' = s).
Proof.
  split; [|split; [|split]]; intros l H; eapply bulk_result; exact H.
Qed.

(** Withdrawing the whole supply empties both reserves. *)
Lemma remove_liquidity_all_drains env tx ty min_x min_y (s s' : State) r :
  remove_liquidity env tx ty (total_supply (fst s)) min_x min_y s
    = Some (ok r, s') ->
  reserve_x (fst s') = 0 /\ reserve_y (fst s') = 0 /\ total_supply (fst s') = 0.
Proof.
  intros H. apply remove_liquidity_ok in H
    as (Hs & _ & _ & _ & _ & _ & _ & _ & _ & ->).
  cbn. rewrite !share_of_reserve_all by exact Hs. lia.
Qed.

End Behaviour.

(** ** Liquidity quotes *)

(** C10 (amended): [quote-add-liquidity] never answers with an [err]
    response, but it is not total: with [total-supply = 0] it aborts
    whenever [amount-x * amount-y] does not fit in 128 bits.  With
    [total-supply = 0], whenever the product fits and the square root
    returns, the answer is [ok] with the square root of the product as
    the shares and the optimal amounts equal to the inputs; quoting
    [(0, 0)] gives [ok] with zero shares. *)
Theorem quote_add_liquidity_never_err (isqrt : uint -> option uint)
    (p : Pool) (amount_x amount_y : uint) :
  (forall e, quote_add_liquidity isqrt p amount_x amount_y <> Some (err e)) /\
  (total_supply p = 0 ->
   forall shares,
     amount_x * amount_y <= UINT_MAX ->
     isqrt (amount_x * amount_y) = Some shares ->
     quote_add_liquidity isqrt p amount_x amount_y
       = Some (ok (mkLiqQuote shares amount_x amount_y))) /\
  (total_supply p = 0 ->
   isqrt 0 = Some 0 ->
   quote_add_liquidity isqrt p 0 0 = Some (ok (mkLiqQuote 0 0 0))) /\
  (total_supply p = 0 ->
   UINT_MAX < amount_x * amount_y ->
   quote_add_liquidity isqrt p amount_x amount_y = None).
Proof.
  unfold quote_add_liquidity, ebind, ecalc, eret.
  split; [|split; [|split]].
  - intros e. destruct (total_supply p =? 0).
    + destruct (_ ≫= _); discriminate.
    + repeat (destruct (_ ≫= _); [|discriminate]). discriminate.
  - intros -> shares Hmax Hs. cbn [N.eqb].
    unfold umul. apply N.leb_le in Hmax as ->. cbv [mbind option_bind].
    rewrite Hs. reflexivity.
  - intros -> H0. cbn [N.eqb]. change (umul 0 0) with (Some 0).
    cbv [mbind option_bind]. rewrite H0. reflexivity.
  - intros -> Hmax. cbn [N.eqb].
    unfold umul. apply N.leb_gt in Hmax as ->. reflexivity.
Qed.

Lemma quote_add_liquidity_never_err_witness :
  quote_add_liquidity builtin_sqrti deployed 100000000 200000000
    = Some (ok (mkLiqQuote 141421356 100000000 200000000)) /\
  quote_add_liquidity builtin_sqrti deployed 0 0
    = Some (ok (mkLiqQuote 0 0 0)).
Proof.
  split.
  - apply (proj1 (proj2 (quote_add_liquidity_never_err builtin_sqrti deployed
                           100000000 200000000))).
    + reflexivity.
    + vm_compute. discriminate.
    + vm_compute. reflexivity.
  - apply (proj1 (proj2 (proj2 (quote_add_liquidity_never_err builtin_sqrti
                                  deployed 0 0)))).
    + reflexivity.
    + reflexivity.
Defined.

(** C10 as stated fails: on the deployed pool the quote for the amounts
    [(2 ^ 64, 2 ^ 64)] aborts, their product does not fit in 128 bits;
    this is so whatever [sqrti] stands for. *)
Lemma quote_add_liquidity_aborts :
  quote_add_liquidity builtin_sqrti deployed
    18446744073709551616 18446744073709551616 = None /\
  quote_add_liquidity sqrti deployed
    18446744073709551616 18446744073709551616 = None /\
  total_supply deployed = 0 /\
  18446744073709551616 <= UINT_MAX.
Proof.
  split; [vm_compute; reflexivity|]. split; [vm_compute; reflexivity|].
  split; [reflexivity | vm_compute; discriminate].
Qed.

(** ** Concrete runs *)

Lemma quote_x_for_y_below_reserve_witness :
  exists out,
    quote_x_for_y (fst initialized) 10000000 = Some (ok (mkQuote out 30000)) /\
    out = 18132217 /\ out < 200000000 /\ 30000 <= 10000000.
Proof.
  apply (proj2 (quote_x_for_y_below_reserve (fst initialized) 10000000)).
  - reflexivity.
  - vm_compute. reflexivity.
  - vm_compute. reflexivity.
  - vm_compute. discriminate.
  - vm_compute. discriminate.
  - vm_compute. discriminate.
Defined.

(** C9 as stated fails: for [dx = 2 ^ 127] on the initialized pool,
    [dx * 30] overflows and the quote aborts. *)
Lemma quote_x_for_y_aborts :
  quote_x_for_y (fst initialized) 170141183460469231731687303715884105728 = None /\
  0 < 170141183460469231731687303715884105728 <= UINT_MAX /\
  0 < reserve_x (fst initialized) /\ 0 < reserve_y (fst initialized).
Proof.
  split; [vm_compute; reflexivity|].
  split; [split; [reflexivity | vm_compute; discriminate]|].
  split; vm_compute; reflexivity.
Qed.

(** C1 (a failing item discards the whole batch and the call returns that
    item's error code) does not hold of the code.  On the initialized pool,
    a bulk swap whose second item fails on slippage returns [ok] with the
    list of both responses, and the first swap stays applied: the reserves
    are no longer the ones before the batch. *)
Theorem bulk_swap_x_for_y_keeps_partial_effects :
  let before := initialized in
  let out :=
    call_public
      (bulk_swap_x_for_y ledger_transfer pool_v5 (mkEnv wallet_1 6)
                         [first_swap; slipping_swap])
      before in
  fst out = Committed [ok (mkSwap 10000000 18132217 30000 wallet_1);
                       err ERR_SLIPPAGE_EXCEEDED] /\
  (reserve_x (fst before), reserve_y (fst before)) = (100000000, 200000000) /\
  (reserve_x (fst (snd out)), reserve_y (fst (snd out))) = (109970000, 181867783).
Proof. vm_compute. repeat split; reflexivity. Qed.

(** C2 as stated fails: the deployer withdraws every share of the
    initialized pool, the call commits and both reserves are zero. *)
Lemma remove_all_drains_reserves :
  let out :=
    call_public
      (remove_liquidity ledger_transfer pool_v5 (mkEnv deployer 6)
                        token_x token_y 141421356 0 0)
      initialized in
  fst out = Committed (mkLiq 141421356 100000000 200000000) /\
  (reserve_x (fst initialized), reserve_y (fst initialized))
    = (100000000, 200000000) /\
  (reserve_x (fst (snd out)), reserve_y (fst (snd out))) = (0, 0).
Proof. vm_compute. repeat split; reflexivity. Qed.

Lemma reserves_stay_positive_witness :
  let s' :=
    snd (call_public
           (run_call ledger_transfer pool_v5 builtin_sqrti (mkEnv deployer 6)
                     (RemoveLiquidity token_x token_y 70000000 0 0))
           initialized) in
  0 < reserve_x (fst s') /\ 0 < reserve_y (fst s').
Proof.
  cbv zeta.
  apply (reserves_stay_positive ledger_transfer pool_v5 builtin_sqrti
           (mkEnv deployer 6)
           (RemoveLiquidity token_x token_y 70000000 0 0) initialized _ tt).
  - vm_compute. reflexivity.
  - vm_compute. reflexivity.
  - vm_compute. reflexivity.
  - intros _. vm_compute. reflexivity.
Defined.

(** C3 (the swap of [10000000] X returns [18181818] Y, the swap of
    [20000000] Y returns [9090909] X) does not hold of the code.  On the
    pool initialized with [(100000000, 200000000)], the swap of
    [10000000] X commits and returns [18132217] Y with fee [30000], and
    the swap of [20000000] Y commits and returns [9066108] X with fee
    [60000]. *)
Theorem swap_scenario_outputs :
  let env := mkEnv wallet_1 6 in
  (reserve_x (fst initialized), reserve_y (fst initialized))
    = (100000000, 200000000) /\
  fst (call_public
         (swap_x_for_y ledger_transfer pool_v5 env token_x token_y
                       10000000 18000000 wallet_1 16) initialized)
    = Committed (mkSwap 10000000 18132217 30000 wallet_1) /\
  fst (call_public
         (swap_y_for_x ledger_transfer pool_v5 env token_x token_y
                       20000000 9000000 wallet_1 16) initialized)
    = Committed (mkSwap 9066108 20000000 60000 wallet_1) /\
  18132217 <> 18181818 /\ 9066108 <> 9090909.
Proof. vm_compute. repeat split; (reflexivity || discriminate). Qed.

Lemma swap_scenario_witness :
  exists r s',
    swap_x_for_y ledger_transfer pool_v5 (mkEnv wallet_1 6) token_x token_y
                 10000000 18000000 wallet_1 16 initialized = Some (ok r, s') /\
    sr_dy r = 18132217 /\ sr_fee r = 30000.
Proof.
  exists (mkSwap 10000000 18132217 30000 wallet_1), swapped.
  assert (Hrun : swap_x_for_y ledger_transfer pool_v5 (mkEnv wallet_1 6)
                   token_x token_y 10000000 18000000 wallet_1 16 initialized
                 = Some (ok (mkSwap 10000000 18132217 30000 wallet_1), swapped)).
  { vm_compute. reflexivity. }
  split; [exact Hrun|].
  apply (proj1 (swap_scenario ledger_transfer pool_v5 (mkEnv wallet_1 6)
                  token_x token_y 18000000 wallet_1 16 initialized swapped
                  (mkSwap 10000000 18132217 30000 wallet_1)
                  eq_refl eq_refl)).
  exact Hrun.
Defined.

(** C4 (initializing with [(100000000, 200000000)] issues [14142] shares)
    does not hold of the code.  On the deployed pool the call commits,
    takes both amounts and issues [141421356] shares, the integer square
    root of [100000000 * 200000000], to the deployer, which is also the
    new total supply; with the function the contract defines under the
    name [sqrti] in place of the native one it issues [78125000000083].
    Neither is [14142]. *)
Theorem initialize_pool_shares_issued :
  let run isqrt :=
    call_public
      (initialize_pool ledger_transfer pool_v5 isqrt (mkEnv deployer 5)
                       token_x token_y 100000000 200000000)
      genesis in
  fst (run builtin_sqrti) = Committed (mkLiq 141421356 100000000 200000000) /\
  total_supply (fst (snd (run builtin_sqrti))) = 141421356 /\
  get_lp_balance (fst (snd (run builtin_sqrti))) deployer = 141421356 /\
  (reserve_x (fst (snd (run builtin_sqrti))),
   reserve_y (fst (snd (run builtin_sqrti)))) = (100000000, 200000000) /\
  fst (run sqrti) = Committed (mkLiq 78125000000083 100000000 200000000) /\
  141421356 <> 14142 /\ 78125000000083 <> 14142.
Proof. vm_compute. repeat split; (reflexivity || discriminate). Qed.

(** C6 as stated fails: on the deployed pool, a swap whose deadline has
    passed fails with 201 (not initialized), not with 102. *)
Lemma expired_swap_on_deployed_pool :
  swap_x_for_y ledger_transfer pool_v5 (mkEnv wallet_1 6) token_x token_y
               10000000 0 wallet_1 3 genesis
    = Some (err ERR_NOT_INITIALIZED, genesis) /\
  3 < stacks_block_height (mkEnv wallet_1 6) /\
  fee_recipient (fst genesis) = None /\
  ERR_NOT_INITIALIZED <> ERR_DEADLINE_EXPIRED.
Proof. vm_compute. repeat split; (reflexivity || discriminate). Qed.

Lemma swap_x_for_y_check_order_witness :
  let env := mkEnv wallet_1 6 in
  let swap := swap_x_for_y ledger_transfer pool_v5 env token_x token_y in
  swap 10000000 0 wallet_1 3 genesis = Some (err ERR_NOT_INITIALIZED, genesis) /\
  swap 0 0 wallet_1 3 initialized = Some (err ERR_DEADLINE_EXPIRED, initialized) /\
  swap 0 0 wallet_1 16 initialized = Some (err ERR_ZERO_INPUT, initialized) /\
  swap 10000000 0 wallet_1 16 drained = Some (err ERR_ZERO_RESERVES, drained).
Proof.
  cbv zeta. split; [|split; [|split]].
  - apply (proj1 (swap_x_for_y_check_order ledger_transfer pool_v5
                    (mkEnv wallet_1 6) token_x token_y 10000000 0 wallet_1 3
                    genesis)).
    reflexivity.
  - apply (proj1 (proj2 (swap_x_for_y_check_order ledger_transfer pool_v5
                    (mkEnv wallet_1 6) token_x token_y 0 0 wallet_1 3
                    initialized))).
    + eexists. vm_compute. reflexivity.
    + reflexivity.
  - apply (proj1 (proj2 (proj2 (swap_x_for_y_check_order ledger_transfer pool_v5
                    (mkEnv wallet_1 6) token_x token_y 0 0 wallet_1 16
                    initialized)))).
    + eexists. vm_compute. reflexivity.
    + vm_compute. discriminate.
    + reflexivity.
  - apply (proj2 (proj2 (proj2 (swap_x_for_y_check_order ledger_transfer pool_v5
                    (mkEnv wallet_1 6) token_x token_y 10000000 0 wallet_1 16
                    drained)))).
    + eexists. vm_compute. reflexivity.
    + vm_compute. discriminate.
    + reflexivity.
    + left. vm_compute. reflexivity.
Defined.

Lemma swap_product_nondecreasing_witness :
  reserve_x (fst initialized) * reserve_y (fst initialized)
  <= reserve_x (fst swapped) * reserve_y (fst swapped).
Proof.
  apply (proj1 (swap_product_nondecreasing ledger_transfer pool_v5
                  (mkEnv wallet_1 6) token_x token_y 10000000 18000000
                  wallet_1 16 initialized swapped
                  (mkSwap 10000000 18132217 30000 wallet_1))).
  vm_compute. reflexivity.
Defined.

Lemma shares_sum_to_total_supply_witness :
  sum_balances (lp_balances (fst swapped)) = total_supply (fst swapped).
Proof.
  apply (shares_sum_to_total_supply ledger_transfer pool_v5 builtin_sqrti).
  change swapped with
    (snd (call_public
            (run_call ledger_transfer pool_v5 builtin_sqrti (mkEnv wallet_1 6)
               (SwapXForY token_x token_y 10000000 18000000 wallet_1 16))
            (snd (call_public
                    (run_call ledger_transfer pool_v5 builtin_sqrti
                       (mkEnv deployer 5)
                       (InitializePool token_x token_y 100000000 200000000))
                    genesis)))).
  apply reach_transaction, reach_transaction, reach_deployed.
Defined.

(** ** Further properties of the contract *)

Lemma div_between (a b q : N) : b * q <= a -> a < b * (q + 1) -> a / b = q.
Proof.
  intros Hlo Hhi. rewrite N.mul_add_distr_l, N.mul_1_r in Hhi.
  symmetry. apply (N.div_unique a b q (a - b * q)).
  - apply (N.add_lt_mono_r _ _ (b * q)). rewrite N.sub_add by exact Hlo.
    rewrite N.add_comm. exact Hhi.
  - rewrite N.add_comm, N.sub_add by exact Hlo. reflexivity.
Qed.

Lemma div_mul_le (a b c : N) : b <> 0 -> a * b / c * c / b <= a.
Proof.
  intros Hb. apply N.Div0.div_le_upper_bound.
  pose proof (N.Div0.mul_div_le (a * b) c). lia.
Qed.

(** A Newton step from any positive point lands on or above the integer
    square root. *)
Lemma newton_step_ge_sqrt (n x : N) : 0 < x -> N.sqrt n <= newton_step n x.
Proof.
  intros Hx. unfold newton_step.
  pose proof (N.sqrt_spec n (N.le_0_l n)) as [Hs _]. cbv zeta in Hs.
  set (r := N.sqrt n) in *. clearbody r.
  apply N.div_le_lower_bound; [lia|].
  assert (Hq : 2 * r - x <= n / x).
  { apply N.div_le_lower_bound; [lia|].
    destruct (N.le_gt_cases (2 * r) x) as [Hbig|Hsmall].
    - replace (2 * r - x) with 0 by lia. lia.
    - assert (E : x * (2 * r - x) + (r - x) * (r - x) + (x - r) * (x - r) = r * r)
        by nia.
      lia. }
  set (q := n / x) in *. clearbody q. lia.
Qed.

(** *** The square root *)

Lemma sqrti_small (n : N) : n <= 3 -> sqrti n = Some (N.sqrt n).
Proof.
  intros H.
  assert (n = 0 \/ n = 1 \/ n = 2 \/ n = 3) as [->|[->|[->| ->]]] by lia;
    reflexivity.
Qed.

Lemma sqrti_large (n r : N) :
  4 <= n -> n <= UINT_MAX -> sqrti n = Some r ->
  exists x6, 0 < x6 /\
    r = if newton_step n x6 * newton_step n x6 <=? n
        then newton_step n x6 else newton_step n x6 - 1.
Proof.
  intros Hn Hmax. unfold sqrti.
  destruct (N.leb_spec n 1); [lia|]. destruct (N.leb_spec n 3); [lia|].
  change (udiv n 2) with (Some (n / 2)). cbv [mbind option_bind].
  pose proof (fun k => newton_iter n k Hn Hmax) as Hstep.
  do 7 (let E := fresh in
        pose proof (Hstep 0%nat) as E; cbn [Nat.iter nat_rect] in E, Hstep;
        rewrite E; clear E; cbv [mbind option_bind];
        specialize (fun k => Hstep (S k))).
  clear Hstep.
  destruct (iter_in_range n 6 Hn) as [Hx _]. cbn [Nat.iter nat_rect] in Hx.
  match goal with
  | |- context [umul (newton_step n ?x) _] => set (x6 := x) in *
  end.
  intros Hrun. exists x6. split; [lia|].
  unfold umul in Hrun. destruct (_ <=? UINT_MAX); [|discriminate].
  cbv [mbind option_bind] in Hrun.
  destruct (N.leb_spec (newton_step n x6 * newton_step n x6) n).
  - injection Hrun as <-. reflexivity.
  - apply usub_Some in Hrun as [-> _]. reflexivity.
Qed.

(** X7: [sqrti] never answers below the integer square root, and its
    answer is the integer square root exactly when its square does not
    exceed the argument. *)
Theorem sqrti_never_below_sqrt (n r : uint) :
  n <= UINT_MAX -> sqrti n = Some r ->
  N.sqrt n <= r /\ (r * r <= n <-> r = N.sqrt n).
Proof.
  intros Hmax Hr.
  pose proof (N.sqrt_spec n (N.le_0_l n)) as [Hlo Hhi]. cbv zeta in Hlo, Hhi.
  destruct (N.le_gt_cases n 3) as [Hs|Hl].
  { rewrite sqrti_small in Hr by exact Hs. injection Hr as <-.
    split; [lia | split; [reflexivity | intros _; exact Hlo]]. }
  apply sqrti_large in Hr as (x6 & Hx6 & ->); [|lia|exact Hmax].
  pose proof (newton_step_ge_sqrt n x6 Hx6) as Hge.
  set (x7 := newton_step n x6) in *. clearbody x7.
  set (s := N.sqrt n) in *. clearbody s.
  destruct (N.leb_spec (x7 * x7) n) as [Hsq|Hsq].
  - assert (x7 = s) by nia. subst x7. split; [lia | split; [reflexivity | lia]].
  - assert (s < x7) by nia. split; [lia|]. split; [|intros ->; exact Hlo].
    intros Hrr. nia.
Qed.

Lemma all_below_spec (k : nat) (f : N -> bool) :
  all_below k f = true -> forall n, n < N.of_nat k -> f n = true.
Proof.
  induction k as [|k IH]; cbn [all_below]; intros H n Hn; [lia|].
  apply andb_true_iff in H as [Hk Hrest].
  destruct (N.eq_dec n (N.of_nat k)) as [->|Hne]; [exact Hk|].
  apply IH; [exact Hrest | lia].
Qed.

(** X8: [sqrti] is the exact integer square root of every [n < 9976], and
    9976 is the first argument on which it is not: it answers 100 there,
    whose square exceeds 9976. *)
Theorem sqrti_exact_below_9976 :
  (forall n : uint, n < 9976 -> sqrti n = Some (N.sqrt n)) /\
  sqrti 9976 = Some 100 /\ N.sqrt 9976 = 99.
Proof.
  split; [|split; vm_compute; reflexivity].
  intros n Hn.
  assert (Hall : all_below (N.to_nat 9976) sqrti_exact_at = true)
    by (vm_compute; reflexivity).
  pose proof (all_below_spec _ _ Hall n) as Hex.
  rewrite N2Nat.id in Hex. specialize (Hex Hn).
  unfold sqrti_exact_at in Hex.
  destruct (sqrti n) as [r|]; [|discriminate Hex].
  apply N.eqb_eq in Hex as ->. reflexivity.
Qed.

(** *** More invariants of the storage *)

Section More.

Context {World : Type}.
Variable ft_transfer :
  ft_trait -> uint -> principal -> principal -> World -> option World.
Variable contract_principal : principal.
Variable isqrt : uint -> option uint.

Local Abbreviation State := (Pool * World)%type.
Local Abbreviation M := (@M World).
Local Abbreviation swap_x_for_y := (swap_x_for_y ft_transfer contract_principal).
Local Abbreviation swap_y_for_x := (swap_y_for_x ft_transfer contract_principal).
Local Abbreviation initialize_pool := (initialize_pool ft_transfer contract_principal isqrt).
Local Abbreviation add_liquidity := (add_liquidity ft_transfer contract_principal).
Local Abbreviation remove_liquidity := (remove_liquidity ft_transfer contract_principal).
Local Abbreviation bulk_swap_x_for_y := (bulk_swap_x_for_y ft_transfer contract_principal).
Local Abbreviation bulk_swap_y_for_x := (bulk_swap_y_for_x ft_transfer contract_principal).
Local Abbreviation bulk_add_liquidity := (bulk_add_liquidity ft_transfer contract_principal).
Local Abbreviation bulk_remove_liquidity := (bulk_remove_liquidity ft_transfer contract_principal).
Local Abbreviation bulk_swap_x_for_y_internal := (bulk_swap_x_for_y_internal ft_transfer contract_principal).
Local Abbreviation bulk_swap_y_for_x_internal := (bulk_swap_y_for_x_internal ft_transfer contract_principal).
Local Abbreviation bulk_add_liquidity_internal := (bulk_add_liquidity_internal ft_transfer contract_principal).
Local Abbreviation bulk_remove_liquidity_internal := (bulk_remove_liquidity_internal ft_transfer contract_principal).
Local Abbreviation run_call := (run_call ft_transfer contract_principal isqrt).
Local Abbreviation reachable := (reachable ft_transfer contract_principal isqrt).

#[local] Instance keeps_refl (P : Pool -> Prop) : Reflexive (keeps P).
Proof. intros p H. exact H. Qed.

#[local] Instance keeps_trans (P : Pool -> Prop) : Transitive (keeps P).
Proof. intros p q r H1 H2 H. auto. Qed.

#[local] Instance fees_grow_refl : Reflexive fees_grow.
Proof. intros p. split; lia. Qed.

#[local] Instance fees_grow_trans : Transitive fees_grow.
Proof. intros p q r [H1 H2] [H3 H4]. split; lia. Qed.

Lemma step_unforget {A} (R : Pool -> Pool -> Prop) (m : M A) :
  step R (forget m) -> step R m.
Proof.
  intros Hm s r s' H.
  destruct r as [a|e].
  - apply (Hm s (ok tt) s'). unfold forget. rewrite H. reflexivity.
  - apply (Hm s (err e) s'). unfold forget. rewrite H. reflexivity.
Qed.

(** A relation kept by the four single operations, whatever they return,
    is kept by every bulk call. *)
Lemma step_bulk_calls (R : Pool -> Pool -> Prop)
    `{!Reflexive R, !Transitive R} env c :
  (forall c', batch_item c' = true -> step R (run_call env c')) ->
  match c with
  | InitializePool _ _ _ _ => True
  | _ => step R (run_call env c)
  end.
Proof.
  intros Hitem. destruct c; try exact I; try (apply Hitem; reflexivity);
    cbn [run_call]; apply step_forget, step_bulk; try apply _; intros a;
    (apply step_public_call; [apply _|]).
  - apply step_unforget.
    apply (Hitem (SwapXForY (sx_token_x a) (sx_token_y a) (sx_dx a)
                    (sx_min_dy a) (sx_recipient a) (sx_deadline a))).
    reflexivity.
  - apply step_unforget.
    apply (Hitem (SwapYForX (sy_token_x a) (sy_token_y a) (sy_dy a)
                    (sy_min_dx a) (sy_recipient a) (sy_deadline a))).
    reflexivity.
  - apply step_unforget.
    apply (Hitem (AddLiquidity (ad_token_x a) (ad_token_y a) (ad_amount_x a)
                    (ad_amount_y a) (ad_min_shares a))).
    reflexivity.
  - apply step_unforget.
    apply (Hitem (RemoveLiquidity (rd_token_x a) (rd_token_y a) (rd_shares a)
                    (rd_min_x a) (rd_min_y a))).
    reflexivity.
Qed.

Lemma reachable_invariant (P : Pool -> Prop) :
  P deployed ->
  (forall env c, batch_item c = true -> step (keeps P) (run_call env c)) ->
  (forall env tx ty ax ay s r s',
     initialize_pool env tx ty ax ay s = Some (ok r, s') ->
     P (fst s) -> P (fst s')) ->
  forall s, reachable s -> P (fst s).
Proof.
  intros H0 Hitem Hinit s.
  induction 1 as [w | env c s _ IH | env c s s' r _ IH Hc Hrun | p w w' _ IH].
  - exact H0.
  - unfold call_public.
    destruct (run_call env c s) as [[[a|e] s1]|] eqn:Er; cbn [snd fst];
      [|exact IH..].
    pose proof (step_bulk_calls (keeps P) env c (Hitem env)) as Hstep.
    destruct c; try (exact (Hstep _ _ _ Er IH)).
    cbn [run_call] in Er. unfold forget in Er.
    destruct (initialize_pool _ _ _ _ _ s) as [[[a'|e] s2]|] eqn:Ei;
      [|discriminate..].
    injection Er as _ <-. eapply Hinit; eauto.
  - exact (Hitem env c Hc s r s' Hrun IH).
  - exact IH.
Qed.

(** The state a single operation leaves when it returns an error. *)
Lemma item_err_pool env c (s s' : State) e :
  batch_item c = true -> run_call env c s = Some (err e, s') -> fst s' = fst s.
Proof.
  destruct c; try discriminate; intros _; cbn [run_call]; unfold forget;
    intros H.
  - destruct (swap_x_for_y _ _ _ _ _ _ _ s) as [[[a|e1] s1]|] eqn:E;
      try discriminate. injection H as _ <-. eapply swap_x_for_y_err, E.
  - destruct (swap_y_for_x _ _ _ _ _ _ _ s) as [[[a|e1] s1]|] eqn:E;
      try discriminate. injection H as _ <-. eapply swap_y_for_x_err, E.
  - destruct (add_liquidity _ _ _ _ _ _ s) as [[[a|e1] s1]|] eqn:E;
      try discriminate. injection H as _ <-. eapply add_liquidity_err, E.
  - destruct (remove_liquidity _ _ _ _ _ _ s) as [[[a|e1] s1]|] eqn:E;
      try discriminate. injection H as _ <-. eapply remove_liquidity_err, E.
Qed.

(** The pool a single operation leaves when it goes through. *)
Lemma item_ok_pool env c (s s' : State) :
  batch_item c = true -> run_call env c s = Some (ok tt, s') ->
  let p := fst s in
  (is_Some (fee_recipient p) /\ 0 < reserve_x p /\ 0 < reserve_y p /\
   exists fx fy rx ry,
     total_fees_x p <= fx /\ total_fees_y p <= fy /\
     fst s' = mkPool (fee_recipient p) rx ry (total_supply p) fx fy
                     (lp_balances p)) \/
  (0 < total_supply p /\
   exists rx ry supply balances,
     fst s' = mkPool (fee_recipient p) rx ry supply
                     (total_fees_x p) (total_fees_y p) balances).
Proof.
  destruct c; try discriminate; intros _; cbn [run_call]; unfold forget;
    intros H.
  - destruct (swap_x_for_y _ _ _ _ _ _ _ s) as [[[a|e1] s1]|] eqn:E;
      try discriminate. injection H as <-.
    apply swap_x_for_y_ok in E as (Hf & _ & _ & Hx & Hy & _ & _ & _ & ->).
    left. repeat split; try assumption.
    eexists _, _, _, _. split; [|split]. 3: (cbn; reflexivity).
    all: cbn; name_amounts; lia.
  - destruct (swap_y_for_x _ _ _ _ _ _ _ s) as [[[a|e1] s1]|] eqn:E;
      try discriminate. injection H as <-.
    apply swap_y_for_x_ok in E as (Hf & _ & _ & Hx & Hy & _ & _ & _ & ->).
    left. repeat split; try assumption.
    eexists _, _, _, _. split; [|split]. 3: (cbn; reflexivity).
    all: cbn; name_amounts; lia.
  - destruct (add_liquidity _ _ _ _ _ _ s) as [[[a|e1] s1]|] eqn:E;
      try discriminate. injection H as <-.
    apply add_liquidity_ok in E as (Hs & _ & _ & _ & _ & _ & _ & _ & ->).
    right. split; [exact Hs|]. eexists _, _, _, _. reflexivity.
  - destruct (remove_liquidity _ _ _ _ _ _ s) as [[[a|e1] s1]|] eqn:E;
      try discriminate. injection H as <-.
    apply remove_liquidity_ok in E as (Hs & _ & _ & _ & _ & _ & _ & _ & _ & ->).
    right. split; [exact Hs|]. eexists _, _, _, _. reflexivity.
Qed.

Lemma item_fees_grow env c :
  batch_item c = true -> step fees_grow (run_call env c).
Proof.
  intros Hc s [[]|e] s' H.
  - destruct (item_ok_pool env c s s' Hc H)
      as [(_ & _ & _ & fx & fy & rx & ry & Hx & Hy & ->)
         |(_ & rx & ry & sup & bal & ->)]; split; cbn; lia.
  - rewrite (item_err_pool env c s s' e Hc H). reflexivity.
Qed.

Lemma item_recipient_known env c :
  batch_item c = true -> step (keeps recipient_known) (run_call env c).
Proof.
  intros Hc s [[]|e] s' H Hk.
  - destruct (item_ok_pool env c s s' Hc H)
      as [(Hf & _ & _ & fx & fy & rx & ry & _ & _ & ->)
         |(Hs & rx & ry & sup & bal & ->)]; intros _; cbn; auto.
  - rewrite (item_err_pool env c s s' e Hc H). exact Hk.
Qed.

(** X10: no call ever decreases the cumulative fee counters. *)
Theorem fees_never_decrease env c (s : State) :
  fees_grow (fst s) (fst (snd (call_public (run_call env c) s))).
Proof.
  unfold call_public.
  destruct (run_call env c s) as [[[a|e] s1]|] eqn:Er; cbn [snd fst];
    try reflexivity.
  pose proof (step_bulk_calls fees_grow env c (item_fees_grow env)) as Hstep.
  destruct c; try (exact (Hstep _ _ _ Er)).
  cbn [run_call] in Er. unfold forget in Er.
  destruct (initialize_pool _ _ _ _ _ s) as [[[a'|e] s2]|] eqn:Ei;
    [|discriminate..].
  injection Er as _ <-.
  apply initialize_pool_ok in Ei as (_ & _ & _ & _ & sh & _ & _ & _ & ->).
  split; cbn; lia.
Qed.

(** X11: in every state the contract reaches, the pool is either empty
    (both reserves and the supply of shares are zero) or live (all three
    are positive). *)
Theorem pool_empty_or_live (s : State) :
  reachable s ->
  (reserve_x (fst s) = 0 /\ reserve_y (fst s) = 0 /\ total_supply (fst s) = 0) \/
  (0 < reserve_x (fst s) /\ 0 < reserve_y (fst s) /\ 0 < total_supply (fst s)).
Proof. intros H. apply reachable_consistent in H as [_ H]. exact H. Qed.

(** X12: in every state the contract reaches, a pool with shares in
    circulation has its fee recipient set, so a swap on it cannot fail
    with 201. *)
Theorem live_pool_knows_recipient (s : State) :
  reachable s ->
  0 < total_supply (fst s) ->
  is_Some (fee_recipient (fst s)) /\
  forall env tx ty dx min_dy recipient deadline s',
    swap_x_for_y env tx ty dx min_dy recipient deadline s
      <> Some (err ERR_NOT_INITIALIZED, s').
Proof.
  intros Hr.
  assert (Hk : recipient_known (fst s)).
  { revert s Hr. apply reachable_invariant.
    - intros H. cbn in H. lia.
    - apply item_recipient_known.
    - intros env tx ty ax ay s r s' Hi _ _.
      apply initialize_pool_ok in Hi as (_ & _ & _ & _ & sh & _ & _ & _ & ->).
      cbn. eauto. }
  intros Hs. specialize (Hk Hs). split; [exact Hk|].
  intros env tx ty dx min_dy recipient deadline s' H.
  apply swap_x_for_y_err_201 in H. destruct Hk as [a Ha]. congruence.
Qed.

(** X13: in every state the contract reaches, no account holds more
    shares than the total supply, and [get-pool-share], when it returns,
    returns at most 10000 basis points. *)
Theorem pool_share_at_most_whole (s : State) (user : principal) :
  reachable s ->
  get_lp_balance (fst s) user <= total_supply (fst s) /\
  forall v, get_pool_share (fst s) user = Some v -> v <= 10000.
Proof.
  intros H. apply reachable_consistent in H as [Hsum _].
  pose proof (balance_le_sum (lp_balances (fst s)) user) as Hle.
  fold (get_lp_balance (fst s) user) in Hle. rewrite Hsum in Hle.
  split; [exact Hle|]. intros v. unfold get_pool_share.
  destruct (N.eqb_spec (total_supply (fst s)) 0) as [_|Hs].
  - intros [= <-]. lia.
  - intros Hv. apply muldiv_Some in Hv as (-> & _ & _).
    apply N.Div0.div_le_upper_bound. lia.
Qed.

(** X14: [get-user-liquidity] reports, for an account with shares, the
    amounts that [quote-remove-liquidity] answers for its whole balance;
    for an account without shares, or on a pool without supply, it reports
    zeros. *)
Theorem get_user_liquidity_as_quoted (p : Pool) (user : principal) :
  (forall x y,
     quote_remove_liquidity p (get_lp_balance p user) = Some (ok (x, y)) ->
     get_user_liquidity p user = Some (mkUserLiq x y (get_lp_balance p user))) /\
  (total_supply p = 0 \/ get_lp_balance p user = 0 ->
   get_user_liquidity p user = Some (mkUserLiq 0 0 0)).
Proof.
  unfold quote_remove_liquidity, get_user_liquidity, ebind, easserts, ecalc, eret.
  split.
  - intros x y.
    destruct (N.ltb_spec 0 (total_supply p)) as [Hs|Hs]; [|discriminate].
    destruct (N.ltb_spec 0 (get_lp_balance p user)) as [Hb|Hb]; [|discriminate].
    destruct (N.eqb_spec (total_supply p) 0); [lia|].
    destruct (N.eqb_spec (get_lp_balance p user) 0); [lia|]. cbn [orb].
    destruct (_ ≫= _) as [ax|]; [|discriminate].
    destruct (_ ≫= _) as [ay|]; [|discriminate].
    intros [= <- <-]. reflexivity.
  - intros [-> | ->]; [reflexivity|].
    destruct (total_supply p =? 0); reflexivity.
Qed.

(** X15: in every state the contract reaches, the amounts that
    [get-user-liquidity] reports do not exceed the reserves. *)
Theorem user_liquidity_within_reserves (s : State) (user : principal) ul :
  reachable s ->
  get_user_liquidity (fst s) user = Some ul ->
  ul_x ul <= reserve_x (fst s) /\ ul_y ul <= reserve_y (fst s) /\
  ul_shares ul <= total_supply (fst s).
Proof.
  intros H. apply reachable_consistent in H as [Hsum _].
  pose proof (balance_le_sum (lp_balances (fst s)) user) as Hle.
  fold (get_lp_balance (fst s) user) in Hle. rewrite Hsum in Hle.
  unfold get_user_liquidity.
  destruct (_ || _).
  - intros [= <-]. cbn. lia.
  - destruct (umul _ (reserve_x _) ≫= _) as [x|] eqn:Ex; [|discriminate].
    destruct (umul _ (reserve_y _) ≫= _) as [y|] eqn:Ey; [|discriminate].
    intros [= <-]. cbn.
    apply muldiv_Some in Ex as (-> & _ & _).
    apply muldiv_Some in Ey as (-> & _ & _).
    repeat split; [| |exact Hle]; apply N.Div0.div_le_upper_bound; nia.
Qed.

(** X16: a deposit never pulls more than the caller offered: the amounts
    taken are at most [amount-x] and [amount-y]. *)
Theorem add_liquidity_within_offer env tx ty amount_x amount_y min_shares
    (s s' : State) r :
  add_liquidity env tx ty amount_x amount_y min_shares s = Some (ok r, s') ->
  lr_x r <= amount_x /\ lr_y r <= amount_y.
Proof.
  intros H. apply add_liquidity_ok in H
    as (Hs & _ & _ & Hx & Hy & _ & _ & -> & _). cbn [lr_x lr_y].
  pose proof (div_mul_le amount_x (total_supply (fst s)) (reserve_x (fst s))) as Hax.
  pose proof (div_mul_le amount_y (total_supply (fst s)) (reserve_y (fst s))) as Hay.
  destruct (N.ltb_spec (amount_x * total_supply (fst s) / reserve_x (fst s))
                       (amount_y * total_supply (fst s) / reserve_y (fst s)))
    as [Hlt|Hge].
  - split; [apply Hax; lia|].
    etransitivity; [|apply Hay; lia].
    apply N.Div0.div_le_mono, N.mul_le_mono_r. lia.
  - split; [|apply Hay; lia].
    etransitivity; [|apply Hax; lia].
    apply N.Div0.div_le_mono, N.mul_le_mono_r. lia.
Qed.

(** Redeeming, at once, the shares a deposit just issued pays back the
    amount the deposit took. *)
Lemma redeem_fresh_shares (sh reserve supply : N) :
  0 < supply ->
  sh * (reserve + sh * reserve / supply) / (supply + sh) = sh * reserve / supply.
Proof.
  intros Hs.
  pose proof (N.Div0.mul_div_le (sh * reserve) supply) as Hlo.
  pose proof (N.mul_succ_div_gt (sh * reserve) supply) as Hhi.
  set (q := sh * reserve / supply) in *. clearbody q.
  apply div_between; nia.
Qed.

(** X17: a deposit followed at once by the withdrawal of the shares it
    issued pays back exactly the amounts the deposit took, and restores the
    reserves, the supply and the caller's share balance. *)
Theorem add_then_remove_round_trip env tx ty amount_x amount_y min_shares
    min_x min_y (s s1 s1' s2 : State) r r' :
  add_liquidity env tx ty amount_x amount_y min_shares s = Some (ok r, s1) ->
  fst s1' = fst s1 ->
  remove_liquidity env tx ty (lr_shares r) min_x min_y s1' = Some (ok r', s2) ->
  lr_x r' = lr_x r /\ lr_y r' = lr_y r /\
  reserve_x (fst s2) = reserve_x (fst s) /\
  reserve_y (fst s2) = reserve_y (fst s) /\
  total_supply (fst s2) = total_supply (fst s) /\
  get_lp_balance (fst s2) (tx_sender env) = get_lp_balance (fst s) (tx_sender env).
Proof.
  intros Hadd Hsame Hrem.
  apply add_liquidity_ok in Hadd as (Hs & _ & _ & _ & _ & _ & _ & -> & Hs1).
  apply remove_liquidity_ok in Hrem as (_ & _ & _ & _ & _ & _ & _ & _ & -> & ->).
  rewrite Hsame, Hs1. cbn.
  match goal with
  | |- context [if ?c then ?a else ?b] =>
      set (sh := if c then a else b) in *; clearbody sh
  end.
  rewrite !redeem_fresh_shares by exact Hs.
  unfold get_lp_balance. cbn. rewrite !lookup_insert_eq. cbn.
  repeat split; lia.
Qed.

(** X18: a withdrawal never lowers what backs each remaining share, and a
    deposit never raises it: with [rx], [S] before and [rx'], [S'] after,
    [rx * S' <= rx' * S] for a withdrawal and [rx' * S <= rx * S'] for a
    deposit, and likewise for Y. *)
Theorem backing_per_share env tx ty (s s' : State) r :
  (forall shares min_x min_y,
     remove_liquidity env tx ty shares min_x min_y s = Some (ok r, s') ->
     reserve_x (fst s) * total_supply (fst s')
       <= reserve_x (fst s') * total_supply (fst s) /\
     reserve_y (fst s) * total_supply (fst s')
       <= reserve_y (fst s') * total_supply (fst s)) /\
  (forall amount_x amount_y min_shares,
     add_liquidity env tx ty amount_x amount_y min_shares s = Some (ok r, s') ->
     reserve_x (fst s') * total_supply (fst s)
       <= reserve_x (fst s) * total_supply (fst s') /\
     reserve_y (fst s') * total_supply (fst s)
       <= reserve_y (fst s) * total_supply (fst s')).
Proof.
  split.
  - intros shares min_x min_y H. apply remove_liquidity_ok in H
      as (Hs & _ & _ & _ & _ & Hax & Hay & Hle & _ & ->). cbn.
    pose proof (N.Div0.mul_div_le (shares * reserve_x (fst s)) (total_supply (fst s))).
    pose proof (N.Div0.mul_div_le (shares * reserve_y (fst s)) (total_supply (fst s))).
    name_amounts. nia.
  - intros amount_x amount_y min_shares H. apply add_liquidity_ok in H
      as (Hs & _ & _ & _ & _ & _ & _ & _ & ->). cbn.
    match goal with
    | |- context [if ?c then ?a else ?b] =>
        set (sh := if c then a else b) in *; clearbody sh
    end.
    pose proof (N.Div0.mul_div_le (sh * reserve_x (fst s)) (total_supply (fst s))).
    pose proof (N.Div0.mul_div_le (sh * reserve_y (fst s)) (total_supply (fst s))).
    name_amounts. nia.
Qed.

(** X19: in every state the contract reaches, a holder can always withdraw:
    [remove-liquidity] goes through for any positive number of shares up
    to the caller's balance whenever the two products fit in 128 bits, the
    minimums are met and the two payouts transfer. *)
Theorem remove_liquidity_goes_through env tx ty shares min_x min_y
    (p : Pool) (w w1 w2 : World) :
  reachable (p, w) ->
  let amount_x := shares * reserve_x p / total_supply p in
  let amount_y := shares * reserve_y p / total_supply p in
  0 < shares -> shares <= get_lp_balance p (tx_sender env) ->
  shares * reserve_x p <= UINT_MAX -> shares * reserve_y p <= UINT_MAX ->
  min_x <= amount_x -> min_y <= amount_y ->
  ft_transfer tx amount_x contract_principal (tx_sender env) w = Some w1 ->
  ft_transfer ty amount_y contract_principal (tx_sender env) w1 = Some w2 ->
  exists p',
    remove_liquidity env tx ty shares min_x min_y (p, w)
      = Some (ok (mkLiq shares amount_x amount_y), (p', w2)).
Proof.
  intros Hr amount_x amount_y Hsh Hbal Hmx Hmy Hminx Hminy Ht1 Ht2.
  apply reachable_consistent in Hr as [Hsum _]. cbn [fst] in Hsum.
  pose proof (balance_le_sum (lp_balances p) (tx_sender env)) as Hle.
  fold (get_lp_balance p (tx_sender env)) in Hle. rewrite Hsum in Hle.
  assert (Hs : 0 < total_supply p) by lia.
  assert (Hx : amount_x <= reserve_x p)
    by (apply N.Div0.div_le_upper_bound; nia).
  assert (Hy : amount_y <= reserve_y p)
    by (apply N.Div0.div_le_upper_bound; nia).
  eexists.
  unfold remove_liquidity, pub_bind, var_get, asserts, calc, transfer, var_set,
    pub_ret. cbn [fst snd].
  apply N.ltb_lt in Hs as Hs'. rewrite Hs'.
  apply N.ltb_lt in Hsh as ->. apply N.leb_le in Hbal as Hbal'. rewrite Hbal'.
  unfold umul. apply N.leb_le in Hmx as ->. apply N.leb_le in Hmy as ->.
  cbv [mbind option_bind]. unfold udiv.
  destruct (N.eqb_spec (total_supply p) 0); [lia|].
  fold amount_x amount_y.
  apply N.leb_le in Hminx as ->. apply N.leb_le in Hminy as ->.
  cbn [fst snd]. rewrite Ht1. cbn [fst snd]. rewrite Ht2. cbn [fst snd].
  unfold usub. apply N.leb_le in Hx as ->. apply N.leb_le in Hy as ->.
  assert (Hss : shares <= total_supply p) by lia.
  apply N.leb_le in Hss as ->. rewrite Hbal'. cbn [fst snd]. reflexivity.
Qed.

(** X20: what a successful swap returns and leaves in the storage depends
    on the amount and on the storage before it only: not on the token
    contracts the caller passes, nor on the caller, the minimum, the
    deadline or the state of the ledgers. *)
Theorem swap_x_for_y_ignores_tokens env env' tx ty tx' ty' dx min_dy min_dy'
    recipient deadline deadline' (p : Pool) (w w' : World) (s1 s1' : State) r r' :
  swap_x_for_y env tx ty dx min_dy recipient deadline (p, w) = Some (ok r, s1) ->
  swap_x_for_y env' tx' ty' dx min_dy' recipient deadline' (p, w')
    = Some (ok r', s1') ->
  r' = r /\ fst s1' = fst s1.
Proof.
  intros H H'.
  apply swap_x_for_y_ok in H as (_ & _ & _ & _ & _ & _ & _ & -> & ->).
  apply swap_x_for_y_ok in H' as (_ & _ & _ & _ & _ & _ & _ & -> & ->).
  split; reflexivity.
Qed.

(** X21: a swap moves the reserves and one fee counter, nothing else: the
    supply, every share balance and the fee recipient stay, a swap of X
    adds its fee to [total-fees-x] only and a swap of Y to [total-fees-y]
    only. *)
Theorem swap_touches_reserves_and_fees env tx ty amount min_out recipient
    deadline (s s' : State) r :
  (swap_x_for_y env tx ty amount min_out recipient deadline s = Some (ok r, s') ->
   total_supply (fst s') = total_supply (fst s) /\
   lp_balances (fst s') = lp_balances (fst s) /\
   fee_recipient (fst s') = fee_recipient (fst s) /\
   total_fees_x (fst s') = total_fees_x (fst s) + sr_fee r /\
   total_fees_y (fst s') = total_fees_y (fst s)) /\
  (swap_y_for_x env tx ty amount min_out recipient deadline s = Some (ok r, s') ->
   total_supply (fst s') = total_supply (fst s) /\
   lp_balances (fst s') = lp_balances (fst s) /\
   fee_recipient (fst s') = fee_recipient (fst s) /\
   total_fees_x (fst s') = total_fees_x (fst s) /\
   total_fees_y (fst s') = total_fees_y (fst s) + sr_fee r).
Proof.
  split; intros H.
  - apply swap_x_for_y_ok in H as (_ & _ & _ & _ & _ & _ & _ & -> & ->).
    repeat split.
  - apply swap_y_for_x_ok in H as (_ & _ & _ & _ & _ & _ & _ & -> & ->).
    repeat split.
Qed.

(** X22: quoting the withdrawal of the whole supply answers the whole
    reserves, and quoting any part of the supply answers at most the
    reserves. *)
Theorem quote_remove_liquidity_within_reserves (p : Pool) (shares x y : uint) :
  quote_remove_liquidity p shares = Some (ok (x, y)) ->
  (shares <= total_supply p -> x <= reserve_x p /\ y <= reserve_y p) /\
  (shares = total_supply p -> x = reserve_x p /\ y = reserve_y p).
Proof.
  unfold quote_remove_liquidity, ebind, easserts, ecalc, eret.
  destruct (N.ltb_spec 0 (total_supply p)) as [Hs|Hs]; [|discriminate].
  destruct (0 <? shares); [|discriminate].
  destruct (_ ≫= _) as [ax|] eqn:Ex; [|discriminate].
  destruct (_ ≫= _) as [ay|] eqn:Ey in |- *; [|discriminate].
  intros [= <- <-].
  apply muldiv_Some in Ex as (-> & _ & _). apply muldiv_Some in Ey as (-> & _ & _).
  split.
  - intros Hle. split; apply N.Div0.div_le_upper_bound; nia.
  - intros ->. rewrite !share_of_reserve_all by exact Hs. split; reflexivity.
Qed.

(** *** Bulk calls *)

Lemma clarity_map_length {A B} (f : A -> M B) (l : list A) (s s' : State) rs :
  clarity_map f l s = Some (rs, s') -> length rs = length l.
Proof.
  revert s s' rs. induction l as [|a l IH]; intros s s' rs H; cbn in H.
  - injection H as <- _. reflexivity.
  - destruct (f a s) as [[r s1]|]; [|discriminate].
    destruct (clarity_map f l s1) as [[rs1 s2]|] eqn:El; [|discriminate].
    injection H as <- _. cbn. f_equal. eapply IH, El.
Qed.

Lemma clarity_map_all_ok {A B} (f : A -> M B) (l : list A) (s s' : State) rs :
  clarity_map f l s = Some (rs, s') ->
  forallb is_ok rs = true ->
  one_by_one f l s = s'.
Proof.
  unfold one_by_one. revert s s' rs.
  induction l as [|a l IH]; intros s s' rs H Hok; cbn in H.
  - injection H as _ <-. reflexivity.
  - destruct (f a s) as [[r s1]|] eqn:Ea; [|discriminate].
    destruct (clarity_map f l s1) as [[rs1 s2]|] eqn:El; [|discriminate].
    injection H as <- <-. cbn in Hok. apply andb_true_iff in Hok as [Hr Hrest].
    destruct r as [v|e]; [|discriminate Hr].
    cbn [fold_left]. unfold call_public at 2. rewrite Ea. cbn [snd].
    eapply IH; eauto.
Qed.

Lemma bulk_ok_inv {A B} (f : A -> M B) (l : list A) bound (s s' : State) rs :
  pub_bind (list_arg bound l)
    (fun _ => pub_bind (asserts (0 <? len l) ERR_ZERO_INPUT)
                (fun _ => ok_map f l)) s = Some (ok rs, s') ->
  clarity_map f l s = Some (rs, s').
Proof.
  unfold pub_bind, list_arg, asserts, ok_map. intros H.
  destruct (length l <=? bound)%nat; [|discriminate].
  destruct (0 <? len l); [|discriminate].
  destruct (clarity_map f l s) as [[rs1 s1]|]; [|discriminate].
  injection H as <- <-. reflexivity.
Qed.

(** X23: a bulk call returns an error in one case only, the empty list,
    with code 100 and the state untouched; the failure of an item never
    becomes the call's error. *)
Theorem bulk_fails_only_when_empty env (s s' : State) e :
  (forall l, bulk_swap_x_for_y env l s = Some (err e, s') <->
             l = [] /\ e = ERR_ZERO_INPUT /\ s' = s) /\
  (forall l, bulk_swap_y_for_x env l s = Some (err e, s') <->
             l = [] /\ e = ERR_ZERO_INPUT /\ s' = s) /\
  (forall l, bulk_add_liquidity env l s = Some (err e, s') <->
             l = [] /\ e = ERR_ZERO_INPUT /\ s' = s) /\
  (forall l, bulk_remove_liquidity env l s = Some (err e, s') <->
             l = [] /\ e = ERR_ZERO_INPUT /\ s' = s).
Proof.
  split; [|split; [|split]]; intros l; split;
    try (intros H; eapply bulk_result; exact H);
    intros (-> & -> & ->); reflexivity.
Qed.

(** X24: a bulk call answers one response per item, and when all of them
    are [ok] the state it leaves is the one reached by submitting the
    items one by one, each as a transaction of its own. *)
Theorem bulk_as_single_calls env (s s' : State) :
  (forall l rs,
     bulk_swap_x_for_y env l s = Some (ok rs, s') ->
     length rs = length l /\
     (forallb is_ok rs = true ->
      one_by_one (bulk_swap_x_for_y_internal env) l s = s')) /\
  (forall l rs,
     bulk_swap_y_for_x env l s = Some (ok rs, s') ->
     length rs = length l /\
     (forallb is_ok rs = true ->
      one_by_one (bulk_swap_y_for_x_internal env) l s = s')) /\
  (forall l rs,
     bulk_add_liquidity env l s = Some (ok rs, s') ->
     length rs = length l /\
     (forallb is_ok rs = true ->
      one_by_one (bulk_add_liquidity_internal env) l s = s')) /\
  (forall l rs,
     bulk_remove_liquidity env l s = Some (ok rs, s') ->
     length rs = length l /\
     (forallb is_ok rs = true ->
      one_by_one (bulk_remove_liquidity_internal env) l s = s')).
Proof.
  split; [|split; [|split]]; intros l rs H; apply bulk_ok_inv in H;
    (split; [eapply clarity_map_length, H | eapply clarity_map_all_ok, H]).
Qed.

Lemma clarity_map_public_calls {A B} (g : A -> M B) (l : list A)
    (s s' : State) rs :
  clarity_map (fun a => public_call (g a)) l s = Some (rs, s') ->
  one_by_one g l s = s'.
Proof.
  unfold one_by_one. revert s s' rs.
  induction l as [|a l IH]; intros s s' rs H; cbn in H.
  - injection H as _ <-. reflexivity.
  - unfold public_call at 1 in H.
    destruct (g a s) as [[[v|e] s1]|] eqn:Ea; [| |discriminate].
    + destruct (clarity_map _ l s1) as [[rs1 s2]|] eqn:El; [|discriminate].
      injection H as _ <-.
      cbn [fold_left]. unfold call_public at 2. rewrite Ea. cbn [snd].
      eapply IH; eauto.
    + destruct (clarity_map _ l s) as [[rs1 s2]|] eqn:El; [|discriminate].
      injection H as _ <-.
      cbn [fold_left]. unfold call_public at 2. rewrite Ea. cbn [snd].
      eapply IH; eauto.
Qed.

(** X9: an item of a batch that fails is rolled back with everything it
    did, and the items around it stay applied: whatever the responses of
    the items, the state a bulk call leaves when it returns is the one
    reached by submitting the single operations one by one, each as a
    transaction of its own. *)
Theorem bulk_as_transactions env (s s' : State) :
  (forall l rs,
     bulk_swap_x_for_y env l s = Some (ok rs, s') ->
     one_by_one
       (fun a => swap_x_for_y env (sx_token_x a) (sx_token_y a) (sx_dx a)
                   (sx_min_dy a) (sx_recipient a) (sx_deadline a)) l s = s') /\
  (forall l rs,
     bulk_swap_y_for_x env l s = Some (ok rs, s') ->
     one_by_one
       (fun a => swap_y_for_x env (sy_token_x a) (sy_token_y a) (sy_dy a)
                   (sy_min_dx a) (sy_recipient a) (sy_deadline a)) l s = s') /\
  (forall l rs,
     bulk_add_liquidity env l s = Some (ok rs, s') ->
     one_by_one
       (fun a => add_liquidity env (ad_token_x a) (ad_token_y a)
                   (ad_amount_x a) (ad_amount_y a) (ad_min_shares a)) l s
     = s') /\
  (forall l rs,
     bulk_remove_liquidity env l s = Some (ok rs, s') ->
     one_by_one
       (fun a => remove_liquidity env (rd_token_x a) (rd_token_y a)
                   (rd_shares a) (rd_min_x a) (rd_min_y a)) l s = s').
Proof.
  split; [|split; [|split]]; intros l rs H; apply bulk_ok_inv in H;
    eapply clarity_map_public_calls; exact H.
Qed.

(** *** Order of the checks of the liquidity operations *)

(** X25: [initialize-pool] checks, in this order: that both reserves are
    zero (error 200), that both amounts are positive (100), that the shares
    it would issue exceed the minimum liquidity of 1000 (204); the first
    violated check gives the error and the state is untouched. *)
Theorem initialize_pool_check_order env tx ty amount_x amount_y (s : State) :
  let run := initialize_pool env tx ty amount_x amount_y s in
  (reserve_x (fst s) <> 0 \/ reserve_y (fst s) <> 0 ->
   run = Some (err ERR_ALREADY_INITIALIZED, s)) /\
  (reserve_x (fst s) = 0 -> reserve_y (fst s) = 0 ->
   amount_x = 0 \/ amount_y = 0 ->
   run = Some (err ERR_ZERO_INPUT, s)) /\
  (reserve_x (fst s) = 0 -> reserve_y (fst s) = 0 ->
   0 < amount_x -> 0 < amount_y ->
   forall shares,
     amount_x * amount_y <= UINT_MAX ->
     isqrt (amount_x * amount_y) = Some shares ->
     shares <= MINIMUM_LIQUIDITY ->
     run = Some (err ERR_MIN_LIQUIDITY, s)).
Proof.
  cbv zeta. unfold initialize_pool, pub_bind, var_get, asserts, calc.
  cbn [fst snd]. split; [|split].
  - intros Hr.
    assert ((reserve_x (fst s) =? 0) && (reserve_y (fst s) =? 0) = false) as ->.
    { apply andb_false_iff. rewrite !N.eqb_neq. exact Hr. }
    reflexivity.
  - intros -> -> Ha. cbn [N.eqb andb].
    assert ((0 <? amount_x) && (0 <? amount_y) = false) as ->.
    { apply andb_false_iff. rewrite !N.ltb_ge. lia. }
    reflexivity.
  - intros -> -> Hx Hy shares Hmax Hs Hmin. cbn [N.eqb andb].
    apply N.ltb_lt in Hx as ->. apply N.ltb_lt in Hy as ->. cbn [andb].
    unfold umul. apply N.leb_le in Hmax as ->. cbv [mbind option_bind].
    rewrite Hs. apply N.ltb_ge in Hmin as ->. reflexivity.
Qed.

(** X26: [add-liquidity] checks, in this order: that the supply is
    positive (error 201), that both amounts are positive (100), then, with
    the shares [quote-add-liquidity] answers, that they reach the caller's
    minimum (103) and that they are positive (203); the first violated
    check gives the error and the state is untouched. *)
Theorem add_liquidity_check_order env tx ty amount_x amount_y min_shares
    (s : State) :
  let run := add_liquidity env tx ty amount_x amount_y min_shares s in
  (total_supply (fst s) = 0 -> run = Some (err ERR_NOT_INITIALIZED, s)) /\
  (0 < total_supply (fst s) -> amount_x = 0 \/ amount_y = 0 ->
   run = Some (err ERR_ZERO_INPUT, s)) /\
  (0 < total_supply (fst s) -> 0 < amount_x -> 0 < amount_y ->
   forall q,
     quote_add_liquidity isqrt (fst s) amount_x amount_y = Some (ok q) ->
     (lq_shares q < min_shares -> run = Some (err ERR_SLIPPAGE_EXCEEDED, s)) /\
     (min_shares <= lq_shares q -> lq_shares q = 0 ->
      run = Some (err ERR_ZERO_SHARES, s))).
Proof.
  cbv zeta. unfold add_liquidity, pub_bind, var_get, asserts, calc.
  cbn [fst snd]. split; [|split].
  - intros ->. reflexivity.
  - intros Hs Ha. apply N.ltb_lt in Hs as ->.
    assert ((0 <? amount_x) && (0 <? amount_y) = false) as ->.
    { apply andb_false_iff. rewrite !N.ltb_ge. lia. }
    reflexivity.
  - intros Hs Hx Hy q Hq.
    unfold quote_add_liquidity, ebind, ecalc, eret in Hq.
    destruct (N.eqb_spec (total_supply (fst s)) 0); [lia|].
    apply N.ltb_lt in Hs as ->. apply N.ltb_lt in Hx as ->.
    apply N.ltb_lt in Hy as ->. cbn [andb].
    destruct (umul amount_x _ ≫= _) as [sfx|]; [|discriminate].
    destruct (umul amount_y _ ≫= _) as [sfy|]; [|discriminate].
    destruct (umul _ (reserve_x _) ≫= _) as [ox|]; [|discriminate].
    destruct (umul _ (reserve_y _) ≫= _) as [oy|]; [|discriminate].
    injection Hq as <-. cbn [lq_shares fst snd]. split.
    + intros Hlt.
      match goal with
      | |- context [min_shares <=? ?x] =>
          destruct (N.leb_spec min_shares x); [lia | reflexivity]
      end.
    + intros Hle Hz.
      match goal with
      | |- context [min_shares <=? ?x] =>
          destruct (N.leb_spec min_shares x); [|lia];
          destruct (N.ltb_spec 0 x); [lia | reflexivity]
      end.
Qed.

(** X27: [remove-liquidity] checks, in this order: that the supply is
    positive (error 201), that [shares] is positive (100), that the caller
    holds that many shares (202), then, with the amounts
    [quote-remove-liquidity] answers, that X and then Y reach the caller's
    minimums (103); the first violated check gives the error and the state
    is untouched. *)
Theorem remove_liquidity_check_order env tx ty shares min_x min_y (s : State) :
  let run := remove_liquidity env tx ty shares min_x min_y s in
  (total_supply (fst s) = 0 -> run = Some (err ERR_NOT_INITIALIZED, s)) /\
  (0 < total_supply (fst s) -> shares = 0 ->
   run = Some (err ERR_ZERO_INPUT, s)) /\
  (0 < total_supply (fst s) -> 0 < shares ->
   get_lp_balance (fst s) (tx_sender env) < shares ->
   run = Some (err ERR_INSUFFICIENT_LP_BALANCE, s)) /\
  (0 < total_supply (fst s) -> 0 < shares ->
   shares <= get_lp_balance (fst s) (tx_sender env) ->
   forall x y,
     quote_remove_liquidity (fst s) shares = Some (ok (x, y)) ->
     x < min_x \/ y < min_y ->
     run = Some (err ERR_SLIPPAGE_EXCEEDED, s)).
Proof.
  cbv zeta. unfold remove_liquidity, pub_bind, var_get, asserts, calc.
  cbn [fst snd]. split; [|split; [|split]].
  - intros ->. reflexivity.
  - intros Hs ->. apply N.ltb_lt in Hs as ->. reflexivity.
  - intros Hs Hsh Hb. apply N.ltb_lt in Hs as ->. apply N.ltb_lt in Hsh as ->.
    apply N.leb_gt in Hb as ->. reflexivity.
  - intros Hs Hsh Hb x y Hq Hmin.
    unfold quote_remove_liquidity, ebind, easserts, ecalc, eret in Hq.
    apply N.ltb_lt in Hs as Hs'. rewrite Hs' in *.
    apply N.ltb_lt in Hsh as Hsh'. rewrite Hsh' in *.
    apply N.leb_le in Hb as ->.
    destruct (umul _ (reserve_x _) ≫= _) as [ax|]; [|discriminate].
    destruct (umul _ (reserve_y _) ≫= _) as [ay|]; [|discriminate].
    injection Hq as <- <-. cbn [fst snd].
    destruct (N.leb_spec min_x ax); [|reflexivity].
    destruct (N.leb_spec min_y ay); [lia | reflexivity].
Qed.

End More.

(** *** The front end's estimate *)

Lemma quote_x_for_y_ok (p : Pool) (dx out fee : uint) :
  quote_x_for_y p dx = Some (ok (mkQuote out fee)) ->
  let net := dx - dx * FEE_BPS / BPS_DENOM in
  0 < dx /\ 0 < reserve_x p /\ 0 < reserve_y p /\
  fee = dx * FEE_BPS / BPS_DENOM /\
  out = reserve_y p * net / (reserve_x p + net).
Proof.
  unfold quote_x_for_y, ebind, easserts, ecalc, eret.
  destruct (N.ltb_spec 0 dx); [|discriminate].
  destruct (N.ltb_spec 0 (reserve_x p)); [|discriminate].
  destruct (N.ltb_spec 0 (reserve_y p)); [|discriminate]. cbn [andb].
  destruct (_ ≫= _) as [f|] eqn:Ef; [|discriminate].
  destruct (usub dx f) as [n|] eqn:En; [|discriminate].
  destruct (_ ≫= _) as [o|] eqn:Eo in |- *; [|discriminate].
  destruct (swap_amounts_Some _ _ _ _ _ _ Ef En Eo) as (-> & -> & _ & -> & _).
  destruct (_ <? _); [|discriminate]. intros [= <- <-]. auto.
Qed.

Lemma quote_y_for_x_ok (p : Pool) (dy out fee : uint) :
  quote_y_for_x p dy = Some (ok (mkQuote out fee)) ->
  let net := dy - dy * FEE_BPS / BPS_DENOM in
  0 < dy /\ 0 < reserve_x p /\ 0 < reserve_y p /\
  fee = dy * FEE_BPS / BPS_DENOM /\
  out = reserve_x p * net / (reserve_y p + net).
Proof.
  unfold quote_y_for_x, ebind, easserts, ecalc, eret.
  destruct (N.ltb_spec 0 dy); [|discriminate].
  destruct (N.ltb_spec 0 (reserve_x p)); [|discriminate].
  destruct (N.ltb_spec 0 (reserve_y p)); [|discriminate]. cbn [andb].
  destruct (_ ≫= _) as [f|] eqn:Ef; [|discriminate].
  destruct (usub dy f) as [n|] eqn:En; [|discriminate].
  destruct (_ ≫= _) as [o|] eqn:Eo in |- *; [|discriminate].
  destruct (swap_amounts_Some _ _ _ _ _ _ Ef En Eo) as (-> & -> & _ & -> & _).
  destruct (_ <? _); [|discriminate]. intros [= <- <-]. auto.
Qed.

(** The estimate against the contract's formula: pricing on
    [amount * 9970 / 10000] instead of [amount - amount * 30 / 10000]
    never gives more. *)
Lemma estimate_le_output (amount r_in r_out : N) :
  0 < r_in ->
  amount * (BPS_DENOM - FEE_BPS) * r_out
    / (r_in * BPS_DENOM + amount * (BPS_DENOM - FEE_BPS))
  <= r_out * (amount - amount * FEE_BPS / BPS_DENOM)
       / (r_in + (amount - amount * FEE_BPS / BPS_DENOM)).
Proof.
  intros Hin. unfold BPS_DENOM, FEE_BPS. change (10000 - 30) with 9970.
  pose proof (N.Div0.mul_div_le (amount * 30) 10000) as Hfee.
  set (f := amount * 30 / 10000) in *. clearbody f.
  set (net := amount - f).
  assert (Hnet : amount * 9970 <= net * 10000) by (unfold net; lia).
  clearbody net.
  pose proof (N.Div0.mul_div_le (amount * 9970 * r_out)
                (r_in * 10000 + amount * 9970)) as Hq.
  set (q := amount * 9970 * r_out / (r_in * 10000 + amount * 9970)) in *.
  assert (Hqr : q <= r_out).
  { apply N.Div0.div_le_upper_bound. nia. }
  clearbody q.
  apply N.div_le_lower_bound; [lia|].
  assert (r_in * 10000 * q + net * 10000 * q <= r_out * net * 10000); [|nia].
  assert (r_in * 10000 * q <= amount * 9970 * (r_out - q)) by nia.
  assert (amount * 9970 * (r_out - q) <= net * 10000 * (r_out - q))
    by (apply N.mul_le_mono_r; exact Hnet).
  nia.
Qed.

(** X28: the front end never promises more than the contract pays: for
    arguments in the safe integer range, [calculateSwapOutput] on the
    current reserves is at most the output of [quote-x-for-y], and with
    the reserves exchanged at most the output of [quote-y-for-x]. *)
Theorem calculateSwapOutput_at_most_quote (p : Pool) (amount out fee : uint) :
  amount <= MAX_SAFE_INTEGER ->
  reserve_x p <= MAX_SAFE_INTEGER -> reserve_y p <= MAX_SAFE_INTEGER ->
  (quote_x_for_y p amount = Some (ok (mkQuote out fee)) ->
   calculateSwapOutput amount (reserve_x p) (reserve_y p) <= out) /\
  (quote_y_for_x p amount = Some (ok (mkQuote out fee)) ->
   calculateSwapOutput amount (reserve_y p) (reserve_x p) <= out).
Proof.
  intros _ _ _. split; intros H.
  - apply quote_x_for_y_ok in H as (Hd & Hx & Hy & _ & ->).
    unfold calculateSwapOutput.
    destruct (N.eqb_spec (reserve_x p) 0); [lia|].
    destruct (N.eqb_spec (reserve_y p) 0); [lia|].
    destruct (N.eqb_spec amount 0); [lia|]. cbn [orb].
    apply estimate_le_output. exact Hx.
  - apply quote_y_for_x_ok in H as (Hd & Hx & Hy & _ & ->).
    unfold calculateSwapOutput.
    destruct (N.eqb_spec (reserve_x p) 0); [lia|].
    destruct (N.eqb_spec (reserve_y p) 0); [lia|].
    destruct (N.eqb_spec amount 0); [lia|]. cbn [orb].
    apply estimate_le_output. exact Hy.
Qed.



(** *** Concrete runs of the further properties *)

Lemma initialized_reachable : reachable ledger_transfer pool_v5 builtin_sqrti
    initialized.
Proof.
  change initialized with
    (snd (call_public
            (run_call ledger_transfer pool_v5 builtin_sqrti (mkEnv deployer 5)
               (InitializePool token_x token_y 100000000 200000000))
            genesis)).
  apply reach_transaction, reach_deployed.
Qed.

Lemma swapped_reachable : reachable ledger_transfer pool_v5 builtin_sqrti
    swapped.
Proof.
  change swapped with
    (snd (call_public
            (run_call ledger_transfer pool_v5 builtin_sqrti (mkEnv wallet_1 6)
               (SwapXForY token_x token_y 10000000 18000000 wallet_1 16))
            initialized)).
  apply reach_transaction, initialized_reachable.
Qed.

Lemma deposited_reachable : reachable ledger_transfer pool_v5 builtin_sqrti
    deposited.
Proof.
  change deposited with
    (snd (call_public
            (run_call ledger_transfer pool_v5 builtin_sqrti (mkEnv wallet_1 6)
               (AddLiquidity token_x token_y 50000000 100000000 0))
            initialized)).
  apply reach_transaction, initialized_reachable.
Qed.

Lemma swap_x_for_y_as_quoted_witness :
  quote_x_for_y (fst initialized) 10000000
    = Some (ok (mkQuote 18132217 30000)).
Proof.
  apply (swap_x_for_y_as_quoted ledger_transfer pool_v5 (mkEnv wallet_1 6)
           token_x token_y 10000000 18000000 wallet_1 16 initialized swapped
           (mkSwap 10000000 18132217 30000 wallet_1)).
  vm_compute. reflexivity.
Defined.

Lemma swap_y_for_x_as_quoted_witness :
  quote_y_for_x (fst initialized) 20000000
    = Some (ok (mkQuote 9066108 60000)).
Proof.
  apply (swap_y_for_x_as_quoted ledger_transfer pool_v5 (mkEnv wallet_1 6)
           token_x token_y 20000000 0 wallet_1 16 initialized
           (snd (call_public
                   (swap_y_for_x ledger_transfer pool_v5 (mkEnv wallet_1 6)
                      token_x token_y 20000000 0 wallet_1 16) initialized))
           (mkSwap 9066108 20000000 60000 wallet_1)).
  vm_compute. reflexivity.
Defined.

Lemma add_liquidity_as_quoted_witness :
  quote_add_liquidity builtin_sqrti (fst initialized) 50000000 100000000
    = Some (ok (mkLiqQuote 70710678 50000000 100000000)).
Proof.
  apply (add_liquidity_as_quoted ledger_transfer pool_v5 builtin_sqrti (mkEnv wallet_1 6)
           token_x token_y 50000000 100000000 0 initialized deposited
           (mkLiq 70710678 50000000 100000000)).
  vm_compute. reflexivity.
Defined.

Lemma remove_liquidity_as_quoted_witness :
  quote_remove_liquidity (fst deposited) 70710678
    = Some (ok (50000000, 100000000)).
Proof.
  apply (remove_liquidity_as_quoted ledger_transfer pool_v5 (mkEnv wallet_1 6)
           token_x token_y 70710678 0 0 deposited redeemed
           (mkLiq 70710678 50000000 100000000)).
  vm_compute. reflexivity.
Defined.

Lemma swap_x_for_y_transfers_witness :
  exists fee_addr w0 w1,
    fee_recipient (fst initialized) = Some fee_addr /\
    (if (0 <? 30000) && negb (wallet_1 =? fee_addr)
     then ledger_transfer token_x 30000 wallet_1 fee_addr (snd initialized)
          = Some w0
     else w0 = snd initialized) /\
    ledger_transfer token_x (10000000 - 30000) wallet_1 pool_v5 w0 = Some w1 /\
    ledger_transfer token_y 18132217 pool_v5 wallet_1 w1 = Some (snd swapped).
Proof.
  apply (swap_x_for_y_transfers ledger_transfer pool_v5 (mkEnv wallet_1 6)
           token_x token_y 10000000 18000000 wallet_1 16
           (fst initialized) (snd initialized) swapped
           (mkSwap 10000000 18132217 30000 wallet_1)).
  vm_compute. reflexivity.
Defined.

Lemma sqrti_never_below_sqrt_witness :
  N.sqrt 20000000000000000 <= 78125000000083 /\
  (78125000000083 * 78125000000083 <= 20000000000000000 <->
   78125000000083 = N.sqrt 20000000000000000).
Proof.
  apply (sqrti_never_below_sqrt 20000000000000000 78125000000083).
  - vm_compute. discriminate.
  - vm_compute. reflexivity.
Defined.

Lemma sqrti_exact_below_9976_witness : sqrti 2500 = Some (N.sqrt 2500).
Proof. apply (proj1 sqrti_exact_below_9976 2500). reflexivity. Defined.

Lemma bulk_as_transactions_witness :
  let env := mkEnv wallet_1 6 in
  let batch := [first_swap; misdirected_swap] in
  let out :=
    call_public (bulk_swap_x_for_y ledger_transfer pool_v5 env batch)
                initialized in
  fst out = Committed [ok (mkSwap 10000000 18132217 30000 wallet_1);
                       err ERR_TRANSFER_Y_FAILED] /\
  snd out = swapped /\
  one_by_one
    (fun a => swap_x_for_y ledger_transfer pool_v5 env
                (sx_token_x a) (sx_token_y a) (sx_dx a) (sx_min_dy a)
                (sx_recipient a) (sx_deadline a)) batch initialized
  = swapped.
Proof.
  cbv zeta.
  assert (Hrun : bulk_swap_x_for_y ledger_transfer pool_v5 (mkEnv wallet_1 6)
                   [first_swap; misdirected_swap] initialized
                 = Some (ok [ok (mkSwap 10000000 18132217 30000 wallet_1);
                             err ERR_TRANSFER_Y_FAILED], swapped))
    by (vm_compute; reflexivity).
  split; [unfold call_public; rewrite Hrun; reflexivity|].
  split; [unfold call_public; rewrite Hrun; reflexivity|].
  exact (proj1 (bulk_as_transactions ledger_transfer pool_v5 (mkEnv wallet_1 6)
                  initialized swapped) _ _ Hrun).
Defined.

Lemma pool_empty_or_live_witness :
  (reserve_x (fst swapped) = 0 /\ reserve_y (fst swapped) = 0 /\
   total_supply (fst swapped) = 0) \/
  (0 < reserve_x (fst swapped) /\ 0 < reserve_y (fst swapped) /\
   0 < total_supply (fst swapped)).
Proof.
  exact (pool_empty_or_live ledger_transfer pool_v5 builtin_sqrti swapped swapped_reachable).
Defined.

Lemma live_pool_knows_recipient_witness :
  is_Some (fee_recipient (fst swapped)) /\
  forall env tx ty dx min_dy recipient deadline s',
    swap_x_for_y ledger_transfer pool_v5 env tx ty dx min_dy recipient deadline
                 swapped
      <> Some (err ERR_NOT_INITIALIZED, s').
Proof.
  apply (live_pool_knows_recipient ledger_transfer pool_v5 builtin_sqrti swapped
           swapped_reachable).
  vm_compute. reflexivity.
Defined.

Lemma pool_share_at_most_whole_witness :
  get_lp_balance (fst deposited) wallet_1 <= total_supply (fst deposited) /\
  forall v, get_pool_share (fst deposited) wallet_1 = Some v -> v <= 10000.
Proof.
  exact (pool_share_at_most_whole ledger_transfer pool_v5 builtin_sqrti deposited wallet_1
           deposited_reachable).
Defined.

Lemma get_user_liquidity_as_quoted_witness :
  get_user_liquidity (fst deposited) wallet_1
    = Some (mkUserLiq 50000000 100000000 (get_lp_balance (fst deposited) wallet_1)) /\
  get_user_liquidity (fst deposited) wallet_2 = Some (mkUserLiq 0 0 0).
Proof.
  split.
  - apply (proj1 (get_user_liquidity_as_quoted (fst deposited) wallet_1)).
    vm_compute. reflexivity.
  - apply (proj2 (get_user_liquidity_as_quoted (fst deposited) wallet_2)).
    right. vm_compute. reflexivity.
Defined.

Lemma user_liquidity_within_reserves_witness :
  50000000 <= reserve_x (fst deposited) /\
  100000000 <= reserve_y (fst deposited) /\
  70710678 <= total_supply (fst deposited).
Proof.
  apply (user_liquidity_within_reserves ledger_transfer pool_v5 builtin_sqrti deposited
           wallet_1 (mkUserLiq 50000000 100000000 70710678)
           deposited_reachable).
  vm_compute. reflexivity.
Defined.

Lemma add_liquidity_within_offer_witness :
  50000000 <= 50000000 /\ 100000000 <= 100000000.
Proof.
  apply (add_liquidity_within_offer ledger_transfer pool_v5 (mkEnv wallet_1 6)
           token_x token_y 50000000 100000000 0 initialized deposited
           (mkLiq 70710678 50000000 100000000)).
  vm_compute. reflexivity.
Defined.

Lemma add_then_remove_round_trip_witness :
  lr_x (mkLiq 70710678 50000000 100000000) = 50000000 /\
  lr_y (mkLiq 70710678 50000000 100000000) = 100000000 /\
  reserve_x (fst redeemed) = reserve_x (fst initialized) /\
  reserve_y (fst redeemed) = reserve_y (fst initialized) /\
  total_supply (fst redeemed) = total_supply (fst initialized) /\
  get_lp_balance (fst redeemed) wallet_1 = get_lp_balance (fst initialized) wallet_1.
Proof.
  apply (add_then_remove_round_trip ledger_transfer pool_v5 (mkEnv wallet_1 6)
           token_x token_y 50000000 100000000 0 0 0
           initialized deposited deposited redeemed
           (mkLiq 70710678 50000000 100000000)
           (mkLiq 70710678 50000000 100000000)).
  - vm_compute. reflexivity.
  - reflexivity.
  - vm_compute. reflexivity.
Defined.

Lemma backing_per_share_witness :
  reserve_x (fst deposited) * total_supply (fst redeemed)
    <= reserve_x (fst redeemed) * total_supply (fst deposited) /\
  reserve_y (fst deposited) * total_supply (fst redeemed)
    <= reserve_y (fst redeemed) * total_supply (fst deposited).
Proof.
  apply (proj1 (backing_per_share ledger_transfer pool_v5 (mkEnv wallet_1 6)
                  token_x token_y deposited redeemed
                  (mkLiq 70710678 50000000 100000000))
           70710678 0 0).
  vm_compute. reflexivity.
Defined.

Lemma remove_liquidity_goes_through_witness :
  exists p',
    remove_liquidity ledger_transfer pool_v5 (mkEnv wallet_1 6) token_x token_y
                     70710678 0 0 (fst deposited, snd deposited)
      = Some (ok (mkLiq 70710678 50000000 100000000), (p', snd redeemed)).
Proof.
  eapply (remove_liquidity_goes_through ledger_transfer pool_v5 builtin_sqrti
            (mkEnv wallet_1 6) token_x token_y 70710678 0 0
            (fst deposited) (snd deposited) _ (snd redeemed)).
  - change (fst deposited, snd deposited) with deposited.
    exact deposited_reachable.
  - reflexivity.
  - vm_compute. discriminate.
  - vm_compute. discriminate.
  - vm_compute. discriminate.
  - vm_compute. discriminate.
  - vm_compute. discriminate.
  - vm_compute. reflexivity.
  - vm_compute. reflexivity.
Defined.

Lemma swap_x_for_y_ignores_tokens_witness :
  mkSwap 10000000 18132217 30000 wallet_1
    = mkSwap 10000000 18132217 30000 wallet_1 /\
  fst (snd (call_public
              (swap_x_for_y ledger_transfer pool_v5 (mkEnv deployer 9)
                 token_y token_x 10000000 0 wallet_1 30) initialized))
    = fst swapped.
Proof.
  apply (swap_x_for_y_ignores_tokens ledger_transfer pool_v5
           (mkEnv wallet_1 6) (mkEnv deployer 9) token_x token_y token_y token_x
           10000000 18000000 0 wallet_1 16 30
           (fst initialized) (snd initialized) (snd initialized)).
  - vm_compute. reflexivity.
  - vm_compute. reflexivity.
Defined.

Lemma swap_touches_reserves_and_fees_witness :
  total_supply (fst swapped) = total_supply (fst initialized) /\
  lp_balances (fst swapped) = lp_balances (fst initialized) /\
  fee_recipient (fst swapped) = fee_recipient (fst initialized) /\
  total_fees_x (fst swapped) = total_fees_x (fst initialized) + 30000 /\
  total_fees_y (fst swapped) = total_fees_y (fst initialized).
Proof.
  apply (proj1 (swap_touches_reserves_and_fees ledger_transfer pool_v5
                  (mkEnv wallet_1 6) token_x token_y 10000000 18000000
                  wallet_1 16 initialized swapped
                  (mkSwap 10000000 18132217 30000 wallet_1))).
  vm_compute. reflexivity.
Defined.

Lemma quote_remove_liquidity_within_reserves_witness :
  50000000 <= reserve_x (fst deposited) /\ 100000000 <= reserve_y (fst deposited).
Proof.
  assert (Hq : quote_remove_liquidity (fst deposited) 70710678
               = Some (ok (50000000, 100000000))) by (vm_compute; reflexivity).
  apply (proj1 (quote_remove_liquidity_within_reserves (fst deposited)
                  70710678 50000000 100000000 Hq)).
  vm_compute. discriminate.
Defined.

Lemma bulk_fails_only_when_empty_witness :
  bulk_swap_x_for_y ledger_transfer pool_v5 (mkEnv wallet_1 6) [] initialized
    = Some (err ERR_ZERO_INPUT, initialized).
Proof.
  apply (proj1 (bulk_fails_only_when_empty ledger_transfer pool_v5
                  (mkEnv wallet_1 6) initialized initialized ERR_ZERO_INPUT) []).
  split; [reflexivity | split; reflexivity].
Defined.

Lemma bulk_as_single_calls_witness :
  let env := mkEnv wallet_1 6 in
  let after :=
    snd (call_public
           (bulk_swap_x_for_y ledger_transfer pool_v5 env
                              [first_swap; quiet_swap]) initialized) in
  one_by_one (bulk_swap_x_for_y_internal ledger_transfer pool_v5 env)
             [first_swap; quiet_swap] initialized = after.
Proof.
  cbv zeta.
  apply (proj1 (bulk_as_single_calls ledger_transfer pool_v5 (mkEnv wallet_1 6)
                  initialized _)
           [first_swap; quiet_swap]
           [ok (mkSwap 10000000 18132217 30000 wallet_1);
            ok (mkSwap 5000000 7886659 15000 wallet_2)]).
  - vm_compute. reflexivity.
  - reflexivity.
Defined.

Lemma initialize_pool_check_order_witness :
  let init := initialize_pool ledger_transfer pool_v5 builtin_sqrti
                              (mkEnv deployer 5)
                              token_x token_y in
  init 100000000 200000000 initialized
    = Some (err ERR_ALREADY_INITIALIZED, initialized) /\
  init 0 200000000 genesis = Some (err ERR_ZERO_INPUT, genesis) /\
  init 100 100 genesis = Some (err ERR_MIN_LIQUIDITY, genesis).
Proof.
  cbv zeta. split; [|split].
  - apply (proj1 (initialize_pool_check_order ledger_transfer pool_v5 builtin_sqrti
                    (mkEnv deployer 5) token_x token_y 100000000 200000000
                    initialized)).
    left. vm_compute. discriminate.
  - apply (proj1 (proj2 (initialize_pool_check_order ledger_transfer pool_v5 builtin_sqrti
                    (mkEnv deployer 5) token_x token_y 0 200000000 genesis))).
    + reflexivity.
    + reflexivity.
    + left. reflexivity.
  - apply (proj2 (proj2 (initialize_pool_check_order ledger_transfer pool_v5 builtin_sqrti
                    (mkEnv deployer 5) token_x token_y 100 100 genesis))
             eq_refl eq_refl eq_refl eq_refl 100).
    + vm_compute. discriminate.
    + vm_compute. reflexivity.
    + vm_compute. discriminate.
Defined.

Lemma add_liquidity_check_order_witness :
  let add := add_liquidity ledger_transfer pool_v5 (mkEnv wallet_1 6)
                           token_x token_y in
  add 50000000 100000000 0 genesis = Some (err ERR_NOT_INITIALIZED, genesis) /\
  add 0 100000000 0 initialized = Some (err ERR_ZERO_INPUT, initialized) /\
  add 50000000 100000000 80000000 initialized
    = Some (err ERR_SLIPPAGE_EXCEEDED, initialized) /\
  add 1 1 0 lopsided = Some (err ERR_ZERO_SHARES, lopsided).
Proof.
  cbv zeta. split; [|split; [|split]].
  - apply (proj1 (add_liquidity_check_order ledger_transfer pool_v5 builtin_sqrti
                    (mkEnv wallet_1 6) token_x token_y 50000000 100000000 0
                    genesis)).
    reflexivity.
  - apply (proj1 (proj2 (add_liquidity_check_order ledger_transfer pool_v5 builtin_sqrti
                    (mkEnv wallet_1 6) token_x token_y 0 100000000 0
                    initialized))).
    + vm_compute. reflexivity.
    + left. reflexivity.
  - assert (Hq : quote_add_liquidity builtin_sqrti (fst initialized) 50000000 100000000
                 = Some (ok (mkLiqQuote 70710678 50000000 100000000)))
      by (vm_compute; reflexivity).
    apply (proj1 (proj2 (proj2 (add_liquidity_check_order ledger_transfer pool_v5 builtin_sqrti
                    (mkEnv wallet_1 6) token_x token_y 50000000 100000000
                    80000000 initialized))
                    ltac:(vm_compute; reflexivity) eq_refl eq_refl _ Hq)).
    vm_compute. reflexivity.
  - assert (Hq : quote_add_liquidity builtin_sqrti (fst lopsided) 1 1
                 = Some (ok (mkLiqQuote 0 0 0)))
      by (vm_compute; reflexivity).
    apply (proj2 (proj2 (proj2 (add_liquidity_check_order ledger_transfer pool_v5 builtin_sqrti
                    (mkEnv wallet_1 6) token_x token_y 1 1 0 lopsided))
                    ltac:(vm_compute; reflexivity) eq_refl eq_refl _ Hq)).
    + vm_compute. discriminate.
    + reflexivity.
Defined.

Lemma remove_liquidity_check_order_witness :
  let remove := remove_liquidity ledger_transfer pool_v5 (mkEnv wallet_1 6)
                                 token_x token_y in
  remove 5 0 0 genesis = Some (err ERR_NOT_INITIALIZED, genesis) /\
  remove 0 0 0 deposited = Some (err ERR_ZERO_INPUT, deposited) /\
  remove 5 0 0 initialized
    = Some (err ERR_INSUFFICIENT_LP_BALANCE, initialized) /\
  remove 70710678 50000001 0 deposited
    = Some (err ERR_SLIPPAGE_EXCEEDED, deposited).
Proof.
  cbv zeta. split; [|split; [|split]].
  - apply (proj1 (remove_liquidity_check_order ledger_transfer pool_v5
                    (mkEnv wallet_1 6) token_x token_y 5 0 0 genesis)).
    reflexivity.
  - apply (proj1 (proj2 (remove_liquidity_check_order ledger_transfer pool_v5
                    (mkEnv wallet_1 6) token_x token_y 0 0 0 deposited))).
    + vm_compute. reflexivity.
    + reflexivity.
  - apply (proj1 (proj2 (proj2 (remove_liquidity_check_order ledger_transfer
                    pool_v5 (mkEnv wallet_1 6) token_x token_y 5 0 0
                    initialized)))).
    + vm_compute. reflexivity.
    + reflexivity.
    + vm_compute. reflexivity.
  - apply (proj2 (proj2 (proj2 (remove_liquidity_check_order ledger_transfer
                    pool_v5 (mkEnv wallet_1 6) token_x token_y 70710678
                    50000001 0 deposited)))
             ltac:(vm_compute; reflexivity) eq_refl
             ltac:(vm_compute; discriminate) 50000000 100000000).
    + vm_compute. reflexivity.
    + left. reflexivity.
Defined.

Lemma calculateSwapOutput_at_most_quote_witness :
  calculateSwapOutput 10000000 (reserve_x (fst initialized))
                      (reserve_y (fst initialized)) <= 18132217.
Proof.
  apply (proj1 (calculateSwapOutput_at_most_quote (fst initialized) 10000000
                  18132217 30000
                  ltac:(vm_compute; discriminate)
                  ltac:(vm_compute; discriminate)
                  ltac:(vm_compute; discriminate))).
  vm_compute. reflexivity.
Defined.
